(** * RepoMind: the force-directed dependency graph and the zoom/fit viewport

    A shallow embedding of the two visual components of RepoMind:

    - [DependencyGraph] (the React component that feeds nodes and links to a
      d3-force simulation, clamps the positions on every tick and pins a node
      while it is dragged);
    - [useD3Zoom] (the hook of [components/ChatInterface.tsx] that installs a
      d3-zoom behaviour on a rendered diagram, centres it, and re-centres it
      on [resetZoom];
    - around them, what the same files do with a diagram and an answer
      ([downloadPNG] and [handleSend] of [components/ChatInterface.tsx]) and
      the caller that mounts the graph ([components/AnalysisPanel.tsx]).

    JavaScript numbers are IEEE 754 binary64 values: they are embedded as
    Rocq's primitive [float], so that [NaN], the infinities, signed zeros and
    rounding behave as they do in the browser.  The d3 library itself is not
    part of the repository; the few behaviours of d3-zoom and d3-force that
    the components rely on are written out in the modules [D3Zoom] and
    [D3Force], each next to the documented library behaviour it follows. *)

From Stdlib Require Import Floats ZArith Lia Bool.
From stdpp Require Import base option list gmap sets strings pretty.

Set Warnings "-inexact-float".

(* ===================================================================== *)
(** * Part I. Definitions                                                  *)
(* ===================================================================== *)

(** ** JavaScript numbers *)

Module JS.
Local Open Scope float_scope.

(** [Math.min(a, b)]: [NaN] when either argument is [NaN]; [-0] counts as
    smaller than [+0].  Two comparable, numerically equal arguments differ
    only when they are the two zeros. *)
Definition Math_min (a b : float) : float :=
  match a ?= b with
  | FLt => a
  | FGt => b
  | FEq => if get_sign a then a else b
  | FNotComparable => nan
  end.

(** [Math.max(a, b)], with [+0] larger than [-0]. *)
Definition Math_max (a b : float) : float :=
  match a ?= b with
  | FLt => b
  | FGt => a
  | FEq => if get_sign a then b else a
  | FNotComparable => nan
  end.

(** [a === b] on numbers is the IEEE equality: [NaN] differs from itself and
    the two zeros are equal. *)
Definition strict_eq (a b : float) : bool := a =? b.

(** A number lies in the closed interval [lo, hi]; false for [NaN]. *)
Definition between (lo hi v : float) : bool := (lo <=? v) && (v <=? hi).

End JS.

(** ** d3-zoom: transforms and the zoom behaviour *)

Module D3Zoom.
Import JS.
Local Open Scope float_scope.

(** A d3 [ZoomTransform]: the scale [k] and the translation [(x, y)]. *)
Record Transform : Type := mkTransform { k : float; x : float; y : float }.

Definition zoomIdentity : Transform := mkTransform 1 0 0.

(** [transform.translate(x, y)]:
    [x === 0 & y === 0 ? this : new Transform(k, this.x + k * x, this.y + k * y)]. *)
Definition translate (t : Transform) (dx dy : float) : Transform :=
  if strict_eq dx 0 && strict_eq dy 0 then t
  else mkTransform (k t) (x t + k t * dx) (y t + k t * dy).

(** [transform.scale(k)]: [k === 1 ? this : new Transform(this.k * k, x, y)]. *)
Definition scale (t : Transform) (s : float) : Transform :=
  if strict_eq s 1 then t else mkTransform (k t * s) (x t) (y t).

(** The configuration of a zoom behaviour: [zoom().scaleExtent([k0, k1])]. *)
Record ZoomBehavior : Type := mkZoom { scaleExtent : float * float }.

(** What a user gesture does to the transform.  A wheel or pinch event asks
    for the scale [k * factor] (for the wheel, [factor] is
    [2 ^ wheelDelta]), which d3-zoom clamps to the scale extent,
    [Math.max(k0, Math.min(k1, k * factor))]; a drag pans.  The translation
    that d3 derives from the pointer position is carried by the event. *)
Inductive Gesture : Type :=
| Wheel (factor : float) (new_x new_y : float)
| Pan (new_x new_y : float).

Definition gesture (z : ZoomBehavior) (t : Transform) (g : Gesture) : Transform :=
  match g with
  | Wheel factor nx ny =>
      mkTransform (Math_max (fst (scaleExtent z)) (Math_min (snd (scaleExtent z)) (k t * factor))) nx ny
  | Pan nx ny => mkTransform (k t) nx ny
  end.

End D3Zoom.

(** ** [useD3Zoom] of components/ChatInterface.tsx *)

Module ChatInterface.
Import JS D3Zoom.
Local Open Scope float_scope.

(** [svgNode.getBoundingClientRect()]: only width and height are read. *)
Record DOMRect : Type := mkDOMRect { rect_width : float; rect_height : float }.

(** [gNode.getBBox()]: the bounding box of the diagram's content group. *)
Record SVGRect : Type :=
  mkSVGRect { box_x : float; box_y : float; box_width : float; box_height : float }.

(** The two measurements are taken inside a [try]; [getBBox] may throw. *)
Inductive Measurement : Type :=
| Measured (parentRect : DOMRect) (graphBox : SVGRect)
| MeasureThrows.

(** What step 2 of the effect writes to the [<svg>] (lines 43-48): the
    [width] and [height] attributes and three style properties. *)
Record Presentation : Type := mkPresentation {
  attr_width : string;
  attr_height : string;
  style_max_width : string;
  style_display : string;
  style_cursor : string
}.

Definition responsive : Presentation :=
  mkPresentation "100%" "100%" "none" "block" "grab".

(** The rendered [<svg>] element: whether it has a content group [<g>], what
    measuring it gives, its d3 zoom state (the [__zoom] property, absent on
    an element no behaviour was applied to), the [transform] attribute of
    the content group, and what the effect wrote to its size attributes and
    style ([None] while they are as the diagram was rendered). *)
Record SvgElement : Type := mkSvg {
  has_g : bool;
  measurement : Measurement;
  zoom_state : option Transform;
  g_transform : option Transform;
  presentation : option Presentation
}.

(** The hook's view of the page: [containerRef.current], the [svgContent]
    string, the [<svg>] found in the container, and the two refs the effect
    fills in for [resetZoom]. *)
Record View : Type := mkView {
  container : bool;
  svgContent : string;
  svg : option SvgElement;
  selectionRef : bool;
  zoomRef : bool
}.

(** [zoom().scaleExtent([0.1, 8])]. *)
Definition zoomBehavior : ZoomBehavior := mkZoom (0.1, 8).

(** [d3.zoomTransform(node)]: the element's [__zoom], or the identity. *)
Definition zoomTransform (el : SvgElement) : Transform :=
  default zoomIdentity (zoom_state el).

(** The ['zoom'] listener of the behaviour: [g.attr('transform', event.transform)]. *)
Definition on_zoom (el : SvgElement) (t : Transform) : SvgElement :=
  mkSvg (has_g el) (measurement el) (zoom_state el) (Some t) (presentation el).

(** [selection.call(zoomBehavior)] gives the element a zoom state if it has
    none: [this.__zoom || identity]. *)
Definition call_zoom (el : SvgElement) : SvgElement :=
  mkSvg (has_g el) (measurement el) (Some (zoomTransform el)) (g_transform el)
        (presentation el).

(** [selection.call(zoomBehavior.transform, t)] stores [t] as it is given
    (d3-zoom does not apply the scale extent to a transform set this way) and
    emits a zoom event. *)
Definition call_transform (el : SvgElement) (t : Transform) : SvgElement :=
  on_zoom (mkSvg (has_g el) (measurement el) (Some t) (g_transform el) (presentation el)) t.

(** [selection.transition().duration(750).call(zoomBehavior.transform, t)]:
    the tween ends on [t] itself, so the element comes to rest on what
    [call_transform] gives.  The intermediate frames are not modelled. *)
Definition transition_transform (el : SvgElement) (t : Transform) : SvgElement :=
  call_transform el t.

(** Step 6 of the effect, once both nodes are measured and the box is not
    empty (lines 92-113). *)
Definition initialTransform (parentRect : DOMRect) (graphBox : SVGRect) : Transform :=
  let parentWidth := rect_width parentRect in
  let parentHeight := rect_height parentRect in
  let padding := 40 in
  let scale := Math_min ((parentWidth - padding) / box_width graphBox)
                        ((parentHeight - padding) / box_height graphBox) in
  let initialScale := Math_min scale 1 in
  let x := (parentWidth - box_width graphBox * initialScale) / 2 - box_x graphBox * initialScale in
  let y := (parentHeight - box_height graphBox * initialScale) / 2 - box_y graphBox * initialScale in
  D3Zoom.scale (translate zoomIdentity x y) initialScale.

(** The effect of [useD3Zoom] on the [<svg>] element (steps 4 to 6). *)
Definition fit_element (el : SvgElement) : SvgElement :=
  let el := call_zoom el in
  match measurement el with
  | MeasureThrows => call_transform el zoomIdentity
  | Measured parentRect graphBox =>
      if strict_eq (box_width graphBox) 0 || strict_eq (box_height graphBox) 0
      then el
      else call_transform el (initialTransform parentRect graphBox)
  end.

(** Step 2 of the effect (lines 43-48): the [<svg>] is made to fill its
    container, before the content group is looked for. *)
Definition configure (el : SvgElement) : SvgElement :=
  mkSvg (has_g el) (measurement el) (zoom_state el) (g_transform el) (Some responsive).

(** The whole effect, with its early returns. *)
Definition useD3Zoom_effect (v : View) : View :=
  if negb (container v) || String.eqb (svgContent v) EmptyString then v
  else match svg v with
       | None => v
       | Some el =>
           let el := configure el in
           if negb (has_g el)
           then mkView (container v) (svgContent v) (Some el) (selectionRef v) (zoomRef v)
           else mkView (container v) (svgContent v) (Some (fit_element el)) true true
       end.

(** The transform [resetZoom] computes (lines 139-147). *)
Definition resetTransform (parentRect : DOMRect) (graphBox : SVGRect) : Transform :=
  let scale := Math_min ((rect_width parentRect - 40) / box_width graphBox)
                        ((rect_height parentRect - 40) / box_height graphBox) in
  let initialScale := Math_min scale 1 in
  let x := (rect_width parentRect - box_width graphBox * initialScale) / 2
           - box_x graphBox * initialScale in
  let y := (rect_height parentRect - box_height graphBox * initialScale) / 2
           - box_y graphBox * initialScale in
  D3Zoom.scale (translate zoomIdentity x y) initialScale.

(** [resetZoom] on the element, at rest after the transition. *)
Definition reset_element (el : SvgElement) : SvgElement :=
  match has_g el, measurement el with
  | true, Measured parentRect graphBox =>
      transition_transform el (resetTransform parentRect graphBox)
  | _, _ => transition_transform el zoomIdentity
  end.

Definition resetZoom (v : View) : View :=
  if negb (selectionRef v) || negb (zoomRef v) then v
  else match svg v with
       | None => v
       | Some el =>
           mkView (container v) (svgContent v) (Some (reset_element el))
                  (selectionRef v) (zoomRef v)
       end.

(** A user gesture on the element, handled by d3-zoom. *)
Definition user_gesture (el : SvgElement) (g : Gesture) : SvgElement :=
  call_transform el (gesture zoomBehavior (zoomTransform el) g).

(** A freshly rendered diagram: nothing was applied to it yet. *)
Definition rendered (parentRect : DOMRect) (graphBox : SVGRect) : SvgElement :=
  mkSvg true (Measured parentRect graphBox) None None None.

(** The page right after a diagram was rendered into the container: the
    markup is there, and neither d3 nor the hook touched the [<svg>] yet. *)
Definition page (containerWidth containerHeight : float) (contentBox : SVGRect) : View :=
  mkView true "<svg><g></g></svg>"
         (Some (rendered (mkDOMRect containerWidth containerHeight) contentBox))
         false false.

(** The view transform of the page: the zoom state of its [<svg>]. *)
Definition view_transform (v : View) : Transform :=
  from_option zoomTransform zoomIdentity (svg v).

(** The view transform once the effect ran on the fresh page, as a function
    of the two measurements. *)
Definition fit (containerWidth containerHeight : float) (contentBox : SVGRect) : Transform :=
  view_transform (useD3Zoom_effect (page containerWidth containerHeight contentBox)).

(** The view transform [resetZoom] comes to rest on, for the same page. *)
Definition reset (containerWidth containerHeight : float) (contentBox : SVGRect) : Transform :=
  view_transform
    (resetZoom (useD3Zoom_effect (page containerWidth containerHeight contentBox))).

(** What the specification writes for the fit, with [padding] on each side. *)
Definition spec_fit (containerWidth containerHeight : float) (contentBox : SVGRect)
    (padding : float) : Transform :=
  if strict_eq (box_width contentBox) 0 || strict_eq (box_height contentBox) 0
  then mkTransform 1 0 0
  else
    let scale := Math_min
                   (Math_min ((containerWidth - 2 * padding) / box_width contentBox)
                             ((containerHeight - 2 * padding) / box_height contentBox))
                   1 in
    mkTransform scale
      ((containerWidth - box_width contentBox * scale) / 2 - box_x contentBox * scale)
      ((containerHeight - box_height contentBox * scale) / 2 - box_y contentBox * scale).

(** Wheel and pointer events reach d3-zoom only on an element the behaviour
    was applied to: [selection.call(zoomBehavior)] is what registers the
    listeners, and it is also what gives the element its zoom state. *)
Definition view_gesture (v : View) (g : Gesture) : View :=
  mkView (container v) (svgContent v)
         ((fun el => match zoom_state el with
                     | Some _ => user_gesture el g
                     | None => el
                     end) <$> svg v)
         (selectionRef v) (zoomRef v).


End ChatInterface.

(** ** d3-force: the simulation *)

Module D3Force.
Local Open Scope float_scope.

(** types.ts: the category of a dependency node. *)
Inductive Category : Type :=
| Language | Framework | Library | Tool | Database | Core.

(** A node object once the simulation owns it: the caller's [id] and
    [category], and the fields d3-force adds.  [fx]/[fy] are the pin; [None]
    stands for [null] and [undefined] alike ([node.fx == null]). *)
Record SimNode : Type := mkNode {
  id : string;
  category : Category;
  index : nat;
  x : float;
  y : float;
  vx : float;
  vy : float;
  fx : option float;
  fy : option float
}.

(** A link once [forceLink] resolved its ends: [source] and [target] are
    references to node objects, held here as positions in the node array. *)
Record SimLink : Type := mkLink { source : nat; target : nat; link_index : nat }.

(** Position and velocity of a node, as a force pass leaves them. *)
Record Kinematics : Type := mkKin { kx : float; ky : float; kvx : float; kvy : float }.

(** The registered forces (link, charge, center, collide), taken together:
    given the state of the simulation's random source, the current alpha and
    all nodes, the position and velocity each node is left with, and the next
    state of the random source.  Forces never write [fx], [fy], [id] or
    [index]. *)
Record Forces : Type := mkForces {
  force_pass : N -> float -> list SimNode -> SimNode -> Kinematics;
  next_random : N -> float -> list SimNode -> N
}.

Record Simulation : Type := mkSim {
  nodes : list SimNode;
  alpha : float;
  alphaMin : float;
  alphaDecay : float;
  alphaTarget : float;
  velocityDecay : float;
  random : N;
  timer : bool
}.

Definition set_nodes (s : Simulation) (ns : list SimNode) : Simulation :=
  mkSim ns (alpha s) (alphaMin s) (alphaDecay s) (alphaTarget s) (velocityDecay s)
        (random s) (timer s).

(** [simulation.alphaTarget(a)]. *)
Definition set_alphaTarget (s : Simulation) (a : float) : Simulation :=
  mkSim (nodes s) (alpha s) (alphaMin s) (alphaDecay s) a (velocityDecay s)
        (random s) (timer s).

Definition set_timer (s : Simulation) (b : bool) : Simulation :=
  mkSim (nodes s) (alpha s) (alphaMin s) (alphaDecay s) (alphaTarget s) (velocityDecay s)
        (random s) b.

(** [simulation.restart()] restarts the internal timer; [simulation.stop()]
    stops it. *)
Definition restart (s : Simulation) : Simulation := set_timer s true.
Definition stop (s : Simulation) : Simulation := set_timer s false.

(** [forceSimulation(nodes)] gives every node its [index], a position where
    it has none (on a phyllotaxis spiral, [seed i]) and a zero velocity.  The
    component passes objects that carry only [id] and [category]. *)
Definition initializeNodes {A : Type} (get_id : A -> string) (get_category : A -> Category)
    (seed : nat -> float * float) (ds : list A) : list SimNode :=
  imap (fun i d => mkNode (get_id d) (get_category d) i (fst (seed i)) (snd (seed i)) 0 0 None None) ds.

(** The defaults of [forceSimulation]: alpha 1, alphaMin 0.001,
    alphaDecay [1 - Math.pow(alphaMin, 1 / 300)], alphaTarget 0,
    velocityDecay 0.6, and a running timer. *)
Definition default_alphaDecay : float := 0.02276277904418933.

Definition forceSimulation (ns : list SimNode) : Simulation :=
  mkSim ns 1 0.001 default_alphaDecay 0 0.6 1%N true.

(** The integration at the end of [tick], along one axis:
    [if (node.fx == null) node.x += node.vx *= velocityDecay;
     else node.x = node.fx, node.vx = 0]. *)
Definition integrate_axis (velocityDecay : float) (pin : option float) (p v : float)
    : float * float :=
  match pin with
  | None => let v' := v * velocityDecay in (p + v', v')
  | Some f => (f, 0)
  end.

Definition integrate (velocityDecay : float) (n : SimNode) (kin : Kinematics) : SimNode :=
  let px := integrate_axis velocityDecay (fx n) (kx kin) (kvx kin) in
  let py := integrate_axis velocityDecay (fy n) (ky kin) (kvy kin) in
  mkNode (id n) (category n) (index n) (fst px) (fst py) (snd px) (snd py) (fx n) (fy n).

(** [simulation.tick()]: alpha moves towards its target, the forces run with
    the new alpha, and every node is integrated. *)
Definition tick (F : Forces) (s : Simulation) : Simulation :=
  let alpha' := alpha s + (alphaTarget s - alpha s) * alphaDecay s in
  let ns := nodes s in
  mkSim ((fun n => integrate (velocityDecay s) n (force_pass F (random s) alpha' ns n)) <$> ns)
        alpha' (alphaMin s) (alphaDecay s) (alphaTarget s) (velocityDecay s)
        (next_random F (random s) alpha' ns) (timer s).

(** The timer's callback: [tick()], then the ["tick"] listeners, then
    [if (alpha < alphaMin) stepper.stop()]. *)
Definition step (F : Forces) (on_tick : list SimNode -> list SimNode) (s : Simulation)
    : Simulation :=
  let s1 := tick F s in
  let s2 := set_nodes s1 (on_tick (nodes s1)) in
  if alpha s2 <? alphaMin s2 then stop s2 else s2.

(** One animation frame: the callback runs only while the timer does. *)
Definition frame (F : Forces) (on_tick : list SimNode -> list SimNode) (s : Simulation)
    : Simulation :=
  if timer s then step F on_tick s else s.

Fixpoint frames (F : Forces) (on_tick : list SimNode -> list SimNode) (n : nat)
    (s : Simulation) : Simulation :=
  match n with
  | O => s
  | S n' => frames F on_tick n' (frame F on_tick s)
  end.


(** The alpha schedule seen alone: neither the forces nor the listeners
    touch [alpha], [alphaMin], [alphaDecay], [alphaTarget] or the timer. *)
Record Clock : Type := mkClock {
  c_alpha : float;
  c_alphaMin : float;
  c_alphaDecay : float;
  c_alphaTarget : float;
  c_timer : bool
}.

Definition clock (s : Simulation) : Clock :=
  mkClock (alpha s) (alphaMin s) (alphaDecay s) (alphaTarget s) (timer s).

Definition clock_frame (c : Clock) : Clock :=
  if c_timer c then
    let alpha' := c_alpha c + (c_alphaTarget c - c_alpha c) * c_alphaDecay c in
    mkClock alpha' (c_alphaMin c) (c_alphaDecay c) (c_alphaTarget c)
            (negb (alpha' <? c_alphaMin c))
  else c.

(** [forceLink(links).id(d => d.id)], initialised against the nodes: the map
    from id to node object is [new Map(nodes.map(d => [id(d), d]))], so of
    two nodes with one id the later is kept. *)
Definition nodeById (ns : list SimNode) : gmap string nat :=
  foldl (fun m n => <[id n := index n]> m) ∅ ns.

(** [find(nodeById, nodeId)] throws ["node not found: " + nodeId] when the
    id is unknown. *)
Inductive Result (A : Type) : Type :=
| Ok (a : A)
| Throw (message : string).
Arguments Ok {A} a.
Arguments Throw {A} message.

Definition bind {A B : Type} (r : Result A) (f : A -> Result B) : Result B :=
  match r with
  | Ok a => f a
  | Throw m => Throw m
  end.

Definition find (m : gmap string nat) (nodeId : string) : Result nat :=
  match m !! nodeId with
  | Some n => Ok n
  | None => Throw ("node not found: " +:+ nodeId)
  end.

Fixpoint resolve_links (m : gmap string nat) (i : nat) (ls : list (string * string))
    : Result (list SimLink) :=
  match ls with
  | [] => Ok []
  | (s, t) :: rest =>
      bind (find m s) (fun src =>
      bind (find m t) (fun tgt =>
      bind (resolve_links m (S i) rest) (fun out =>
      Ok (mkLink src tgt i :: out))))
  end.

Definition forceLink_initialize (ns : list SimNode) (ls : list (string * string))
    : Result (list SimLink) :=
  resolve_links (nodeById ns) 0 ls.

End D3Force.

(** ** The [DependencyGraph] component *)

Module DependencyGraph.
Import JS D3Force.
Local Open Scope float_scope.

(** types.ts *)
Record DependencyNode : Type := mkDepNode { node_id : string; node_category : Category }.
Record DependencyLink : Type := mkDepLink { link_source : string; link_target : string }.

(** The [dimensions] state of the component; [height] is always 400 and
    [width] is what [getBoundingClientRect] reports for the container. *)
Record Dimensions : Type := mkDims { width : float; height : float }.

(** What the effect hands to d3: the simulation over the cloned nodes, the
    links that were kept, resolved by [forceLink], and the parameters of the
    four forces. *)
Record ForceParameters : Type := mkParams {
  link_distance : float;
  charge_strength : float;
  center : float * float;
  collide_radius : float
}.

Record SimulationState : Type := mkState {
  simulation : Simulation;
  simulationLinks : list SimLink;
  parameters : ForceParameters
}.

(** Lines 45-58.  The nodes and the kept links are cloned ([{ ...d }]); a
    clone of an immutable record is the record. *)
Definition build (seed : nat -> float * float) (dims : Dimensions)
    (nodes : list DependencyNode) (links : list DependencyLink) : Result SimulationState :=
  let simulationNodes := (fun d => d) <$> nodes in
  let nodeIds : gset string := list_to_set (node_id <$> simulationNodes) in
  let simulationLinks :=
    (fun d => d) <$>
      filter (fun l => link_source l ∈ nodeIds ∧ link_target l ∈ nodeIds) links in
  let sim := forceSimulation (initializeNodes node_id node_category seed simulationNodes) in
  bind (forceLink_initialize (D3Force.nodes sim)
          ((fun l => (link_source l, link_target l)) <$> simulationLinks))
       (fun resolved =>
          Ok (mkState sim resolved
                (mkParams 100 (-300) (width dims / 2, height dims / 2) 30))).

(** The drawing surface: the arrow marker, a line per link and a group per
    node (circle, label and tooltip), each with the attributes the tick
    listener writes. *)
Record Glyph : Type := mkGlyph {
  circle_r : float;
  circle_fill : string;
  label : string;
  label_y : float;
  tooltip : string;
  glyph_transform : option (float * float)
}.

Record Surface : Type := mkSurface {
  arrow_marker : bool;
  lines : list (option (float * float * float * float));
  glyphs : list Glyph
}.

Definition is_hub (c : Category) : bool :=
  match c with
  | Core | Framework => true
  | _ => false
  end.

Definition fill_of (c : Category) : string :=
  match c with
  | Language => "#3b82f6"
  | Framework => "#8b5cf6"
  | Core => "#ec4899"
  | Database => "#10b981"
  | _ => "#64748b"
  end.

Definition category_name (c : Category) : string :=
  match c with
  | Language => "Language"
  | Framework => "Framework"
  | Library => "Library"
  | Tool => "Tool"
  | Database => "Database"
  | Core => "Core"
  end.

Definition draw_node (d : SimNode) : Glyph :=
  mkGlyph (if is_hub (category d) then 20 else 12) (fill_of (category d)) (id d)
          (if is_hub (category d) then 32 else 24)
          (id d +:+ " (" +:+ category_name (category d) +:+ ")") None.

(** Lines 60-120: what is appended after the surface was cleared. *)
Definition draw (st : SimulationState) : Surface :=
  mkSurface true ((fun _ => None) <$> simulationLinks st)
            (draw_node <$> D3Force.nodes (simulation st)).

(** Lines 122-129: the tick listener clamps every node into the box and
    writes its position. *)
Definition clamp_node (dims : Dimensions) (d : SimNode) : SimNode :=
  mkNode (id d) (category d) (index d)
         (Math_max 20 (Math_min (width dims - 20) (x d)))
         (Math_max 20 (Math_min (height dims - 20) (y d)))
         (vx d) (vy d) (fx d) (fy d).

Definition on_tick (dims : Dimensions) (ns : list SimNode) : list SimNode :=
  clamp_node dims <$> ns.

Definition place (d : SimNode) (g : Glyph) : Glyph :=
  mkGlyph (circle_r g) (circle_fill g) (label g) (label_y g) (tooltip g) (Some (x d, y d)).

(** Lines 131-135: a line follows the node objects its link refers to. *)
Definition line_of (ns : list SimNode) (l : SimLink) : option (float * float * float * float) :=
  match ns !! source l, ns !! target l with
  | Some s, Some t => Some (x s, y s, x t, y t)
  | _, _ => None
  end.

Definition render (ns : list SimNode) (ls : list SimLink) (sf : Surface) : Surface :=
  mkSurface (arrow_marker sf) (line_of ns <$> ls) (zip_with place ns (glyphs sf)).

(** Lines 138-160: the drag listeners.  [event.subject] is the node object
    under the pointer (its place in the node array); [event.active] counts
    the other drag gestures in progress. *)
Record DragEvent : Type := mkDrag {
  active : nat;
  subject : nat;
  event_x : float;
  event_y : float
}.

Definition set_pin (px py : option float) (d : SimNode) : SimNode :=
  mkNode (id d) (category d) (index d) (x d) (y d) (vx d) (vy d) px py.

Definition dragstarted (event : DragEvent) (sim : Simulation) : Simulation :=
  let sim := if Nat.eqb (active event) 0 then restart (set_alphaTarget sim 0.3) else sim in
  set_nodes sim (alter (fun d => set_pin (Some (x d)) (Some (y d)) d) (subject event)
                       (D3Force.nodes sim)).

Definition dragged (event : DragEvent) (sim : Simulation) : Simulation :=
  set_nodes sim (alter (set_pin (Some (event_x event)) (Some (event_y event)))
                       (subject event) (D3Force.nodes sim)).

Definition dragended (event : DragEvent) (sim : Simulation) : Simulation :=
  let sim := if Nat.eqb (active event) 0 then set_alphaTarget sim 0 else sim in
  set_nodes sim (alter (set_pin None None) (subject event) (D3Force.nodes sim)).

(** The component between two renders: the [<svg>] behind [svgRef] (absent
    before the first commit), the measured dimensions, and the simulation
    the last effect started. *)
Record Graph : Type := mkGraph {
  svgRef : option Surface;
  dimensions : Dimensions;
  mounted : option SimulationState
}.

(** The body of the second effect (lines 37-165) for the props [nodes] and
    [links].  A throw of [forceLink] would leave the cleared surface. *)
Definition effect (seed : nat -> float * float) (g : Graph)
    (nodes : list DependencyNode) (links : list DependencyLink) : Graph :=
  match svgRef g, nodes with
  | None, _ => g
  | _, [] => g
  | Some _, _ :: _ =>
      match build seed (dimensions g) nodes links with
      | Ok st => mkGraph (Some (draw st)) (dimensions g) (Some st)
      | Throw _ => mkGraph (Some (mkSurface false [] [])) (dimensions g) None
      end
  end.

(** The cleanup the effect returns: [simulation.stop()]. *)
Definition cleanup (g : Graph) : Graph :=
  match mounted g with
  | Some st =>
      mkGraph (svgRef g) (dimensions g)
              (Some (mkState (stop (simulation st)) (simulationLinks st) (parameters st)))
  | None => g
  end.

(** React runs the previous cleanup before the effect of the next props. *)
Definition rerender (seed : nat -> float * float) (g : Graph)
    (nodes : list DependencyNode) (links : list DependencyLink) : Graph :=
  effect seed (cleanup g) nodes links.

(** One animation frame of the mounted simulation: the timer's callback with
    the component's tick listener, which also redraws. *)
Definition animate (F : Forces) (g : Graph) : Graph :=
  match mounted g with
  | Some st =>
      if timer (simulation st) then
        let sim := step F (on_tick (dimensions g)) (simulation st) in
        mkGraph (render (D3Force.nodes sim) (simulationLinks st) <$> svgRef g)
                (dimensions g)
                (Some (mkState sim (simulationLinks st) (parameters st)))
      else g
  | None => g
  end.

(** The ids a resolved link stands for, read off the node objects. *)
Definition resolved_ends (ns : list SimNode) (l : SimLink) : option DependencyLink :=
  match ns !! source l, ns !! target l with
  | Some s, Some t => Some (mkDepLink (id s) (id t))
  | _, _ => None
  end.

(** The clamping interval of each axis is not empty and ends on a finite
    number: the container has room for the 20 px margin on both sides. *)
Definition has_room (dims : Dimensions) : bool :=
  (20 <=? width dims - 20) && is_finite (width dims - 20)
  && (20 <=? height dims - 20) && is_finite (height dims - 20).

(** A position is a pair of numbers. *)
Definition numeric (d : SimNode) : bool := negb (is_nan (x d)) && negb (is_nan (y d)).

(** A force pass that moves nothing, for running the simulation on examples. *)
Definition no_forces : Forces :=
  mkForces (fun _ _ _ d => mkKin (x d) (y d) (vx d) (vy d)) (fun r _ _ => r).

(** A position lies in the container minus the 20 px margin. *)
Definition in_box (dims : Dimensions) (d : SimNode) : bool :=
  between 20 (width dims - 20) (x d) && between 20 (height dims - 20) (y d).

(** Line 21: the [dimensions] state before the container was measured. *)
Definition initial_dimensions : Dimensions := mkDims 600 400.

(** Lines 24-29: [updateDimensions], run once on mount and on every window
    resize.  [containerRef] is the width [getBoundingClientRect] reports for
    the container, absent while [containerRef.current] is null. *)
Definition updateDimensions (containerRef : option float) (d : Dimensions) : Dimensions :=
  match containerRef with
  | Some width => mkDims width 400
  | None => d
  end.

(** What happens to a mounted simulation: an animation frame, or one of the
    three drag events. *)
Inductive Interaction : Type :=
| Frame
| DragStart (event : DragEvent)
| Dragging (event : DragEvent)
| DragEnd (event : DragEvent).

Definition interact (F : Forces) (dims : Dimensions) (sim : Simulation) (a : Interaction)
    : Simulation :=
  match a with
  | Frame => frame F (on_tick dims) sim
  | DragStart event => dragstarted event sim
  | Dragging event => dragged event sim
  | DragEnd event => dragended event sim
  end.

Definition interactions (F : Forces) (dims : Dimensions) (sim : Simulation)
    (l : list Interaction) : Simulation :=
  foldl (interact F dims) sim l.

(** A decision procedure for the alpha schedule: within [fuel] frames, with
    the timer running after each of them, alpha comes to rest on a number
    that the next frame leaves as it is. *)
Fixpoint runs_forever (fuel : nat) (c : Clock) : bool :=
  match fuel with
  | O => false
  | S fuel' =>
      let c' := clock_frame c in
      c_timer c
      && (if Leibniz.eqb (c_alpha c') (c_alpha c) && c_timer c' then true
          else runs_forever fuel' c')
  end.

(** The schedule of a simulation left alone for [k] frames and then grabbed:
    [simulation.alphaTarget(0.3).restart()]. *)
Definition grabbed_clock (k : nat) : Clock :=
  let c := Nat.iter k clock_frame (mkClock 1 0.001 default_alphaDecay 0 true) in
  mkClock (c_alpha c) (c_alphaMin c) (c_alphaDecay c) 0.3 true.

End DependencyGraph.

(** ** [MermaidDiagram] of components/ChatInterface.tsx: the PNG export *)

Module MermaidDiagram.
Import JS ChatInterface.
Local Open Scope float_scope.

(** A number in a condition: [0], [-0] and [NaN] are falsy. *)
Definition truthy (v : float) : bool := negb (v =? 0) && negb (is_nan v).

(** [a || b] on numbers. *)
Definition or_else (a b : float) : float := if truthy a then a else b.

(** The [<svg>] element as [downloadPNG] reads it: its [viewBox] attribute,
    split on spaces and mapped through [Number] (absent when the element has
    no such attribute), and its client rectangle. *)
Record ExportedSvg : Type := mkExported {
  viewBox : option (list float);
  clientRect : DOMRect
}.

(** [viewBox && viewBox[i] ? viewBox[i] : fallback]; an index past the end of
    the array reads [undefined]. *)
Definition viewBox_or (viewBox : option (list float)) (i : nat) (fallback : float) : float :=
  match viewBox with
  | Some vb =>
      match vb !! i with
      | Some v => if truthy v then v else fallback
      | None => fallback
      end
  | None => fallback
  end.

(** What [downloadPNG] hands to the canvas: the numbers it assigns to
    [canvas.width] and [canvas.height] (lines 228-229; what the element then
    reports is the DOM's conversion of them to an unsigned integer, which is
    outside the component), and the width and height it passes to [fillRect]
    and [drawImage]. *)
Record Canvas : Type := mkCanvas {
  width_assigned : float;
  height_assigned : float;
  drawn_width : float;
  drawn_height : float
}.

(** Lines 206-229.  [containerRef] is [None] while [containerRef.current] is
    null, and [Some None] when the container holds no [<svg>]. *)
Definition downloadPNG (containerRef : option (option ExportedSvg)) (scale : float)
    : option Canvas :=
  match containerRef with
  | None => None
  | Some None => None
  | Some (Some svgElement) =>
      let rect := clientRect svgElement in
      let width := viewBox_or (viewBox svgElement) 2 (rect_width rect) in
      let height := viewBox_or (viewBox svgElement) 3 (rect_height rect) in
      let width := or_else width 800 in
      let height := or_else height 600 in
      Some (mkCanvas (width * scale) (height * scale) width height)
  end.

End MermaidDiagram.

(** ** [handleSend] of components/ChatInterface.tsx: the request and the
    streamed answer *)

Module Chat.

(** types.ts: a chat message and its web sources. *)
Inductive Role : Type := user | model.
Inductive ChatMode : Type := standard | thinking | search.

Record Source : Type := mkSource { source_title : option string; source_uri : string }.

Record ChatMessage : Type := mkMessage {
  msg_id : string;
  role : Role;
  content : string;
  timestamp : N;
  sources : option (list Source);
  mode : option ChatMode
}.

(** A chunk of the streamed answer, as far as the handler reads it: [c.text]
    and [c.candidates?.[0]?.groundingMetadata?.groundingChunks], each chunk
    with its optional [web] record. *)
Record Web : Type := mkWeb { web_title : option string; web_uri : option string }.
Record GroundingChunk : Type := mkGroundingChunk { web : option Web }.
Record GenerateContentResponse : Type := mkResponse {
  text : option string;
  groundingChunks : option (list GroundingChunk)
}.

(** Lines 479-484: what is handed to [chatWithRepo] as the history. *)
Record Content : Type := mkContent { content_role : Role; parts : list string }.

Definition history (newMessages : list ChatMessage) : list Content :=
  (fun m => mkContent (role m) [content m])
    <$> filter (fun m => msg_id m <> "init") newMessages.

(** Lines 465-491: the user message, the new message list and the two
    arguments of [chatWithRepo]; [now] holds the two readings of
    [Date.now()], the first of which, printed in decimal, is the id. *)
Definition userMsg (now : N * N) (input : string) (chatMode : ChatMode) : ChatMessage :=
  mkMessage (pretty (fst now)) user input (snd now) None (Some chatMode).

Definition newMessages (messages : list ChatMessage) (now : N * N) (input : string)
    (chatMode : ChatMode) : list ChatMessage :=
  messages ++ [userMsg now input chatMode].

Definition request (messages : list ChatMessage) (now : N * N) (input : string)
    (chatMode : ChatMode) : list Content * string :=
  (history (newMessages messages now input chatMode), content (userMsg now input chatMode)).

(** Lines 515-524: one grounding chunk.  A chunk without [web], without
    [uri] or with an empty [uri] is skipped, and so is a [uri] that is
    already among the sources. *)
Definition add_source (allSources : list Source) (chunk : GroundingChunk) : list Source :=
  match web chunk with
  | Some w =>
      match web_uri w with
      | Some uri =>
          if String.eqb uri "" then allSources
          else if existsb (fun s => String.eqb (source_uri s) uri) allSources then allSources
          else allSources ++ [mkSource (web_title w) uri]
      | None => allSources
      end
  | None => allSources
  end.

(** Lines 509-529: one chunk of the stream updates [fullText] and
    [allSources]. *)
Definition receive (st : string * list Source) (c : GenerateContentResponse)
    : string * list Source :=
  let text := default "" (text c) in
  (fst st +:+ text, foldl add_source (snd st) (default [] (groundingChunks c))).

Definition receive_all (chunks : list GenerateContentResponse) : string * list Source :=
  foldl receive ("", []) chunks.

(** The grounding chunks of a stream, in the order the handler visits them. *)
Definition visited (chunks : list GenerateContentResponse) : list GroundingChunk :=
  mjoin ((fun c => default [] (groundingChunks c)) <$> chunks).

(** [chunk.web?.uri] as the condition of line 516 reads it: absent when the
    chunk has no [web], no [uri], or the empty [uri]. *)
Definition chunk_uri (chunk : GroundingChunk) : option string :=
  match web chunk with
  | Some w =>
      match web_uri w with
      | Some uri => if String.eqb uri "" then None else Some uri
      | None => None
      end
  | None => None
  end.

(** [chunk.web.title] of a chunk that has a [web] record. *)
Definition chunk_title (chunk : GroundingChunk) : option string :=
  web chunk ≫= web_title.

End Chat.

(** ** The caller: components/AnalysisPanel.tsx *)

Module AnalysisPanel.
Import DependencyGraph.

(** types.ts: [AnalysisResult.dependencyGraph]. *)
Record DependencyData : Type := mkData {
  data_nodes : list DependencyNode;
  data_edges : list DependencyLink
}.

(** Lines 27-29: [analysis.dependencyGraph || { nodes: [], edges: [] }]. *)
Definition dependencyData (dependencyGraph : option DependencyData) : DependencyData :=
  default (mkData [] []) dependencyGraph.

(** Lines 234-240: the props of the [<DependencyGraph>] the panel renders,
    or [None] when it shows the placeholder instead. *)
Definition graph_props (dependencyGraph : option DependencyData)
    : option (list DependencyNode * list DependencyLink) :=
  let data := dependencyData dependencyGraph in
  if (0 <? length (data_nodes data))%nat then Some (data_nodes data, data_edges data)
  else None.

End AnalysisPanel.

(* ===================================================================== *)
(** * Part II. Properties                                                  *)
(* ===================================================================== *)

(** ** Comparisons of binary64 numbers

    The primitive comparisons are specified through [SFcompare] on the
    unpacked form of a float; the facts below are what the min/max and the
    clamping arguments need. *)

Module FloatOrder.
Import JS.
Local Open Scope float_scope.

Lemma SFcompare_swap (u v : spec_float) :
  SFcompare v u = option_map CompOpp (SFcompare u v).
Proof.
  destruct u as [[]|[]| |[] m e], v as [[]|[]| |[] m' e']; simpl; try reflexivity.
  - rewrite (Z.compare_antisym e e').
    destruct (e ?= e')%Z; simpl; try reflexivity.
    rewrite (Pos.compare_cont_antisym m m' Eq). reflexivity.
  - rewrite (Z.compare_antisym e e').
    destruct (e ?= e')%Z; simpl; try reflexivity.
    rewrite (Pos.compare_cont_antisym m m' Eq). simpl.
    destruct (Pos.compare_cont Eq m m'); reflexivity.
Qed.

Lemma SFcompare_refl (u : spec_float) :
  u <> S754_nan -> SFcompare u u = Some Eq.
Proof.
  destruct u as [[]|[]| |[] m e]; simpl; try congruence; intros _;
    rewrite Z.compare_refl; change (Pos.compare_cont Eq m m) with (m ?= m)%positive;
    rewrite Pos.compare_refl; reflexivity.
Qed.

Lemma SFcompare_Eq (u v : spec_float) :
  SFcompare u v = Some Eq ->
  u = v \/ exists s t, u = S754_zero s /\ v = S754_zero t.
Proof.
  destruct u as [[]|[]| |[] m e], v as [[]|[]| |[] m' e']; simpl;
    try discriminate; try (left; reflexivity); try (right; eauto; fail); intros H.
  - destruct (e ?= e')%Z eqn:He; try discriminate.
    apply Z.compare_eq in He. subst e'.
    destruct (Pos.compare_cont Eq m m') eqn:Hm; try discriminate.
    apply Pos.compare_eq in Hm. subst m'. left; reflexivity.
  - destruct (e ?= e')%Z eqn:He; try discriminate.
    apply Z.compare_eq in He. subst e'.
    destruct (Pos.compare_cont Eq m m') eqn:Hm; try discriminate.
    apply Pos.compare_eq in Hm. subst m'. left; reflexivity.
Qed.

Lemma is_nan_spec (a : float) : is_nan a = false <-> Prim2SF a <> S754_nan.
Proof.
  unfold is_nan. rewrite FloatAxioms.eqb_spec. unfold SFeqb. split.
  - intros H E. rewrite E in H. discriminate.
  - intros H. rewrite (SFcompare_refl _ H). reflexivity.
Qed.

(** A comparison that answers at all has two numbers in hand. *)
Lemma SFcompare_Some_l (u v : spec_float) (c : comparison) :
  SFcompare u v = Some c -> u <> S754_nan.
Proof. intros H E. subst u. discriminate. Qed.

Lemma SFcompare_Some_r (u v : spec_float) (c : comparison) :
  SFcompare u v = Some c -> v <> S754_nan.
Proof. intros H E. subst v. destruct u; discriminate. Qed.

Lemma leb_not_nan_l (a b : float) : (a <=? b) = true -> is_nan a = false.
Proof.
  rewrite FloatAxioms.leb_spec. unfold SFleb. intros H. apply is_nan_spec.
  destruct (SFcompare (Prim2SF a) (Prim2SF b)) as [c|] eqn:E; try discriminate.
  exact (SFcompare_Some_l _ _ _ E).
Qed.

Lemma leb_not_nan_r (a b : float) : (a <=? b) = true -> is_nan b = false.
Proof.
  rewrite FloatAxioms.leb_spec. unfold SFleb. intros H. apply is_nan_spec.
  destruct (SFcompare (Prim2SF a) (Prim2SF b)) as [c|] eqn:E; try discriminate.
  exact (SFcompare_Some_r _ _ _ E).
Qed.

Lemma leb_refl (a : float) : is_nan a = false -> (a <=? a) = true.
Proof.
  intros H. rewrite FloatAxioms.leb_spec. unfold SFleb.
  rewrite SFcompare_refl; [reflexivity | now apply is_nan_spec].
Qed.

(** The four answers of [compare], read as orderings. *)
Lemma compare_FLt (a b : float) :
  (a ?= b) = FLt -> (a <=? b) = true /\ (b <=? a) = false /\ (a <? b) = true.
Proof.
  rewrite FloatAxioms.compare_spec, !FloatAxioms.leb_spec, FloatAxioms.ltb_spec. unfold SFleb, SFltb.
  rewrite (SFcompare_swap (Prim2SF a) (Prim2SF b)).
  destruct (SFcompare (Prim2SF a) (Prim2SF b)) as [[]|]; simpl; intros H;
    try discriminate; auto.
Qed.

Lemma compare_FGt (a b : float) :
  (a ?= b) = FGt -> (b <=? a) = true /\ (a <=? b) = false /\ (b <? a) = true.
Proof.
  rewrite FloatAxioms.compare_spec, !FloatAxioms.leb_spec, FloatAxioms.ltb_spec. unfold SFleb, SFltb.
  rewrite (SFcompare_swap (Prim2SF a) (Prim2SF b)).
  destruct (SFcompare (Prim2SF a) (Prim2SF b)) as [[]|]; simpl; intros H;
    try discriminate; auto.
Qed.

Lemma compare_FEq (a b : float) :
  (a ?= b) = FEq ->
  (a <=? b) = true /\ (b <=? a) = true /\ (a = b \/ (is_zero a = true /\ is_zero b = true)).
Proof.
  rewrite FloatAxioms.compare_spec, !FloatAxioms.leb_spec. unfold SFleb, is_zero. rewrite !FloatAxioms.eqb_spec. unfold SFeqb.
  rewrite (SFcompare_swap (Prim2SF a) (Prim2SF b)).
  destruct (SFcompare (Prim2SF a) (Prim2SF b)) as [[]|] eqn:E; simpl; intros H;
    try discriminate.
  split; [reflexivity|]. split; [reflexivity|].
  destruct (SFcompare_Eq _ _ E) as [Heq | (s & t & Ha & Hb)].
  - left. now apply Prim2SF_inj.
  - right. rewrite Ha, Hb. split; reflexivity.
Qed.

Lemma compare_FNotComparable (a b : float) :
  (a ?= b) = FNotComparable -> is_nan a = true \/ is_nan b = true.
Proof.
  rewrite FloatAxioms.compare_spec. intros H.
  destruct (is_nan a) eqn:Ea; [now left|]. destruct (is_nan b) eqn:Eb; [now right|].
  apply is_nan_spec in Ea, Eb. exfalso.
  destruct (Prim2SF a) as [[]|[]| |[] m e], (Prim2SF b) as [[]|[]| |[] m' e'];
    simpl in H; try congruence;
    repeat match type of H with context [match ?c with _ => _ end] => destruct c end;
    discriminate.
Qed.

Lemma leb_total (a b : float) :
  is_nan a = false -> is_nan b = false -> (a <=? b) = true \/ (b <=? a) = true.
Proof.
  intros Ha Hb. destruct (a ?= b) eqn:E.
  - left. apply (compare_FEq _ _ E).
  - left. apply (compare_FLt _ _ E).
  - right. apply (compare_FGt _ _ E).
  - destruct (compare_FNotComparable _ _ E); congruence.
Qed.

(** A number above a positive one is not a zero. *)
Lemma above_positive_not_zero (lo v : float) :
  (0 <? lo) = true -> (lo <=? v) = true -> is_zero v = false.
Proof.
  unfold is_zero. rewrite FloatAxioms.ltb_spec, FloatAxioms.leb_spec, FloatAxioms.eqb_spec. unfold SFltb, SFleb, SFeqb.
  change (Prim2SF zero) with (S754_zero false). change (Prim2SF 0) with (S754_zero false).
  destruct (Prim2SF lo) as [[]|[]| |[] m e], (Prim2SF v) as [[]|[]| |[] m' e'];
    simpl; congruence.
Qed.

Lemma positive_not_zero (w : float) : (0 <? w) = true -> (w =? 0) = false.
Proof.
  rewrite FloatAxioms.ltb_spec, FloatAxioms.eqb_spec. unfold SFltb, SFeqb.
  change (Prim2SF 0) with (S754_zero false).
  destruct (Prim2SF w) as [[]|[]| |[] m e]; simpl; congruence.
Qed.

(** [Math.min] and [Math.max] return one of their arguments, or [NaN]. *)
Lemma Math_min_cases (a b : float) :
  (Math_min a b = a /\ (a <=? b) = true) \/
  (Math_min a b = b /\ (b <=? a) = true) \/
  (Math_min a b = nan /\ (is_nan a = true \/ is_nan b = true)).
Proof.
  unfold Math_min. destruct (a ?= b) eqn:E.
  - destruct (compare_FEq _ _ E) as (H1 & H2 & _). destruct (get_sign a); auto.
  - left. split; [reflexivity | apply (compare_FLt _ _ E)].
  - right; left. split; [reflexivity | apply (compare_FGt _ _ E)].
  - right; right. split; [reflexivity | apply (compare_FNotComparable _ _ E)].
Qed.

Lemma Math_max_cases (a b : float) :
  (Math_max a b = a /\ (b <=? a) = true) \/
  (Math_max a b = b /\ (a <=? b) = true) \/
  (Math_max a b = nan /\ (is_nan a = true \/ is_nan b = true)).
Proof.
  unfold Math_max. destruct (a ?= b) eqn:E.
  - destruct (compare_FEq _ _ E) as (H1 & H2 & _). destruct (get_sign a); auto.
  - right; left. split; [reflexivity | apply (compare_FLt _ _ E)].
  - left. split; [reflexivity | apply (compare_FGt _ _ E)].
  - right; right. split; [reflexivity | apply (compare_FNotComparable _ _ E)].
Qed.

(** Clamping a number into a non-empty interval lands in the interval. *)
Lemma clamp_between (lo hi v : float) :
  (lo <=? hi) = true -> is_nan v = false ->
  between lo hi (Math_max lo (Math_min hi v)) = true.
Proof.
  intros Hlh Hv. unfold between.
  pose proof (leb_not_nan_l _ _ Hlh) as Hlo. pose proof (leb_not_nan_r _ _ Hlh) as Hhi.
  destruct (Math_min_cases hi v) as [[-> H] | [[-> H] | [_ [H | H]]]]; try congruence.
  - destruct (Math_max_cases lo hi) as [[-> H'] | [[-> H'] | [_ [H' | H']]]]; try congruence.
    + rewrite (leb_refl lo Hlo), Hlh. reflexivity.
    + rewrite Hlh, (leb_refl hi Hhi). reflexivity.
  - destruct (Math_max_cases lo v) as [[-> H'] | [[-> H'] | [_ [H' | H']]]]; try congruence.
    + rewrite (leb_refl lo Hlo), Hlh. reflexivity.
    + rewrite H', H. reflexivity.
Qed.

(** Clamping leaves a number of the interval as it is, when the interval
    lies above zero. *)
Lemma clamp_inside (lo hi v : float) :
  (0 <? lo) = true -> between lo hi v = true ->
  Math_max lo (Math_min hi v) = v.
Proof.
  unfold between. intros Hpos H. apply andb_prop in H. destruct H as [Hlo Hhi].
  pose proof (above_positive_not_zero _ _ Hpos Hlo) as Hz.
  assert (Math_min hi v = v) as ->.
  { unfold Math_min. destruct (hi ?= v) eqn:E.
    - destruct (compare_FEq _ _ E) as (_ & _ & [-> | [_ Hz']]); [|congruence].
      now destruct (get_sign v).
    - destruct (compare_FLt _ _ E) as (_ & H & _). congruence.
    - reflexivity.
    - destruct (compare_FNotComparable _ _ E) as [H | H].
      + rewrite (leb_not_nan_r _ _ Hhi) in H. discriminate.
      + rewrite (leb_not_nan_l _ _ Hhi) in H. discriminate. }
  unfold Math_max. destruct (lo ?= v) eqn:E.
  - destruct (compare_FEq _ _ E) as (_ & _ & [-> | [_ Hz']]); [|congruence].
    now destruct (get_sign v).
  - reflexivity.
  - destruct (compare_FGt _ _ E) as (_ & H & _). congruence.
  - destruct (compare_FNotComparable _ _ E) as [H | H].
    + rewrite (leb_not_nan_l _ _ Hlo) in H. discriminate.
    + rewrite (leb_not_nan_r _ _ Hlo) in H. discriminate.
Qed.

Lemma SFleb_trans (u v w : spec_float) :
  SFleb u v = true -> SFleb v w = true -> SFleb u w = true.
Proof.
  unfold SFleb.
  destruct u as [[]|[]| |[] m1 e1], v as [[]|[]| |[] m2 e2], w as [[]|[]| |[] m3 e3];
    simpl; try reflexivity; try discriminate;
    change (Pos.compare_cont Eq m1 m2) with (m1 ?= m2)%positive;
    change (Pos.compare_cont Eq m2 m3) with (m2 ?= m3)%positive;
    change (Pos.compare_cont Eq m1 m3) with (m1 ?= m3)%positive;
    destruct (Z.compare_spec e1 e2), (Z.compare_spec e2 e3), (Z.compare_spec e1 e3);
    destruct (Pos.compare_spec m1 m2), (Pos.compare_spec m2 m3), (Pos.compare_spec m1 m3);
    simpl; try reflexivity; try discriminate; intros Huv Hvw;
    try discriminate; exfalso; lia.
Qed.

Lemma leb_trans (a b c : float) :
  (a <=? b) = true -> (b <=? c) = true -> (a <=? c) = true.
Proof. rewrite !FloatAxioms.leb_spec. apply SFleb_trans. Qed.

(** Numbers that [===] finds equal are the same number, or the two zeros. *)
Lemma eqb_true (a b : float) :
  (a =? b) = true -> a = b \/ (is_zero a = true /\ is_zero b = true).
Proof.
  intros H. apply compare_FEq. revert H.
  rewrite FloatAxioms.eqb_spec, FloatAxioms.compare_spec. unfold SFeqb.
  destruct (SFcompare (Prim2SF a) (Prim2SF b)) as [[]|]; simpl; congruence.
Qed.

Lemma eqb_1_eq (s : float) : (s =? 1) = true -> s = 1.
Proof.
  intros H. destruct (eqb_true _ _ H) as [E | [_ E]]; [exact E | discriminate E].
Qed.

(** Adding a zero to [+0] gives [+0]: d3's [0 + 1 * x] turns [-0] into [+0]
    and changes no other number. *)
Lemma add_0_zero (v : float) : (v =? 0) = true -> 0 + v = 0.
Proof.
  rewrite FloatAxioms.eqb_spec. unfold SFeqb. intros H.
  apply Prim2SF_inj. rewrite add_spec. revert H.
  change (Prim2SF 0) with (S754_zero false).
  destruct (Prim2SF v) as [[]|[]| |[] m e]; simpl; try discriminate; reflexivity.
Qed.

Lemma add_0_nonzero (v : float) : (v =? 0) = false -> 0 + v = v.
Proof.
  rewrite FloatAxioms.eqb_spec. unfold SFeqb. intros H.
  apply Prim2SF_inj. rewrite add_spec. revert H.
  change (Prim2SF 0) with (S754_zero false).
  destruct (Prim2SF v) as [[]|[]| |[] m e]; simpl; try discriminate; reflexivity.
Qed.

(** Multiplying by one is exact: the product of the mantissas is the
    mantissa shifted by 52 bits, which rounding shifts back. *)
Lemma mul_1_l (s : float) : 1 * s = s.
Proof.
  apply Prim2SF_inj. rewrite mul_spec.
  pose proof (Prim2SF_valid s) as V.
  destruct (Prim2SF s) as [sg|sg| |sg m e]; try reflexivity.
  change (Prim2SF 1) with (S754_finite false 4503599627370496 (-52)).
  unfold SF64mul, SFmul. simpl xorb.
  change (bounded prec emax m e = true) in V. unfold bounded, canonical_mantissa in V.
  apply andb_prop in V. destruct V as [V1 V2].
  change ((fexp prec emax (Z.pos (digits2_pos m) + e) =? e)%Z = true) in V1.
  apply Z.eqb_eq in V1.
  unfold binary_round_aux, shr_fexp.
  match goal with |- context [PosDef.Pos.mul ?a m] =>
    let r := eval cbv [PosDef.Pos.mul] in (PosDef.Pos.mul a m) in
    change (PosDef.Pos.mul a m) with r end.
  unfold Zdigits2. cbn [digits2_pos].
  match goal with |- context [fexp prec emax ?z] =>
    replace z with (Z.pos (digits2_pos m) + e)%Z
      by (rewrite ?Pos2Z.inj_succ; change IntDef.Z.add with Z.add; lia) end.
  rewrite V1.
  match goal with |- context [shr ?r ?a ?n] =>
    replace n with 52%Z
      by (change IntDef.Z.sub with Z.sub; change IntDef.Z.add with Z.add; lia) end.
  unfold shr at 1. cbn [shr_record_of_loc].
  match goal with |- context [SpecFloat.iter_pos shr_1 52 ?r] =>
    change (SpecFloat.iter_pos shr_1 52 r) with (Build_shr_record (Z.pos m) false false) end.
  cbn [loc_of_shr_record shr_m round_nearest_even shr_record_of_loc].
  match goal with |- context [shr ?r ?a ?n] =>
    replace a with e by (change IntDef.Z.add with Z.add; lia) end.
  rewrite V1.
  match goal with |- context [shr ?r ?a ?n] =>
    replace n with 0%Z by (change IntDef.Z.sub with Z.sub; lia) end.
  cbn [shr shr_record_of_loc shr_m].
  rewrite V2. reflexivity.
Qed.

(** A number between two finite numbers is finite. *)
Lemma between_finite (lo hi v : float) :
  is_finite lo = true -> is_finite hi = true -> between lo hi v = true ->
  is_finite v = true.
Proof.
  unfold between, is_finite, is_infinity, is_nan.
  rewrite !FloatAxioms.leb_spec, !FloatAxioms.eqb_spec, !abs_spec. unfold SFleb, SFeqb.
  change (Prim2SF infinity) with (S754_infinity false).
  destruct (Prim2SF lo) as [[]|[]| |[] m1 e1], (Prim2SF v) as [[]|[]| |[] m2 e2],
    (Prim2SF hi) as [[]|[]| |[] m3 e3]; simpl; try discriminate; try reflexivity;
    intros H1 H2 H3; rewrite ?Z.compare_refl in *;
    repeat match goal with
           | |- context [Pos.compare_cont Eq ?p ?p] =>
               change (Pos.compare_cont Eq p p) with (p ?= p)%positive;
               rewrite Pos.compare_refl
           end; try reflexivity; try discriminate.
Qed.

End FloatOrder.

(** ** The viewport: fitting, resetting and zooming a diagram *)

Module Viewport.
Import JS D3Zoom ChatInterface FloatOrder.
Local Open Scope float_scope.

(** Two floats that differ, by evaluation. *)
Ltac float_neq :=
  let H := fresh in
  intros H;
  match type of H with
  | ?a = ?b => apply (f_equal (fun v => Leibniz.eqb v b)) in H
  end;
  vm_compute in H; discriminate H.

Lemma Math_min_glb (c a b : float) :
  (c <=? a) = true -> (c <=? b) = true -> (c <=? Math_min a b) = true.
Proof.
  intros Ha Hb.
  destruct (Math_min_cases a b) as [[-> _] | [[-> _] | [_ [H | H]]]]; try assumption.
  - rewrite (leb_not_nan_r _ _ Ha) in H. discriminate.
  - rewrite (leb_not_nan_r _ _ Hb) in H. discriminate.
Qed.

Lemma Math_min_le_r (a b : float) :
  is_nan a = false -> is_nan b = false -> (Math_min a b <=? b) = true.
Proof.
  intros Ha Hb.
  destruct (Math_min_cases a b) as [[-> H] | [[-> _] | [_ [H | H]]]]; try congruence.
  now apply leb_refl.
Qed.

Lemma Math_min_le_l (a b : float) :
  is_nan a = false -> is_nan b = false -> (Math_min a b <=? a) = true.
Proof.
  intros Ha Hb.
  destruct (Math_min_cases a b) as [[-> _] | [[-> H] | [_ [H | H]]]]; try congruence.
  now apply leb_refl.
Qed.

Lemma Math_min_not_nan (a b : float) :
  is_nan a = false -> is_nan b = false -> is_nan (Math_min a b) = false.
Proof.
  intros Ha Hb. exact (leb_not_nan_l _ _ (Math_min_le_l a b Ha Hb)).
Qed.

(** The transform built by [zoomIdentity.translate(x, y).scale(s)]: d3's
    arithmetic on the identity leaves [s] as it is and stores [0 + x]. *)
Lemma translate_scale_identity (tx ty s : float) :
  D3Zoom.scale (translate zoomIdentity tx ty) s = mkTransform s (0 + tx) (0 + ty).
Proof.
  unfold D3Zoom.scale, translate, strict_eq, zoomIdentity.
  destruct (tx =? 0) eqn:Ex; destruct (ty =? 0) eqn:Ey; simpl;
    destruct (s =? 1) eqn:Es; simpl;
    rewrite ?mul_1_l;
    try (apply eqb_1_eq in Es; subst s);
    rewrite ?(add_0_zero _ Ex), ?(add_0_zero _ Ey); reflexivity.
Qed.

Lemma fit_nonempty (cw ch : float) (box : SVGRect) :
  (box_width box =? 0) = false -> (box_height box =? 0) = false ->
  fit cw ch box = initialTransform (mkDOMRect cw ch) box.
Proof.
  intros Hw Hh. unfold fit, useD3Zoom_effect, page, view_transform. simpl.
  unfold fit_element, rendered, strict_eq. simpl.
  rewrite Hw, Hh. reflexivity.
Qed.

Lemma reset_measured (cw ch : float) (box : SVGRect) :
  reset cw ch box = resetTransform (mkDOMRect cw ch) box.
Proof.
  unfold reset, resetZoom, useD3Zoom_effect, page, view_transform. simpl.
  unfold fit_element, rendered. simpl.
  destruct (strict_eq (box_width box) 0 || strict_eq (box_height box) 0); reflexivity.
Qed.

(** On a box that is not empty [resetZoom] comes to rest on the transform of
    the initial fit. *)
Lemma reset_eq_fit_nonempty (cw ch : float) (box : SVGRect) :
  (box_width box =? 0) = false -> (box_height box =? 0) = false ->
  reset cw ch box = fit cw ch box.
Proof.
  intros Hw Hh. rewrite reset_measured, (fit_nonempty _ _ _ Hw Hh). reflexivity.
Qed.

(** Resetting twice with the same measurements leaves what one reset
    leaves: the second reset rests on the very same transform. *)
Lemma reset_twice (v : View) : resetZoom (resetZoom v) = resetZoom v.
Proof.
  unfold resetZoom.
  destruct (negb (selectionRef v) || negb (zoomRef v)) eqn:Hrefs; [now rewrite Hrefs|].
  destruct (svg v) as [el|] eqn:Hsvg; simpl; rewrite ?Hrefs, ?Hsvg; [|reflexivity].
  do 2 f_equal.
  unfold reset_element, transition_transform, call_transform, on_zoom.
  destruct (has_g el), (measurement el); reflexivity.
Qed.

(** The effect on an element that has no zoom state yet and an empty box. *)
Lemma fit_element_empty_box (el : SvgElement) (rect : DOMRect) (box : SVGRect) :
  zoom_state el = None ->
  measurement el = Measured rect box ->
  (box_width box =? 0) = true \/ (box_height box =? 0) = true ->
  fit_element el
  = mkSvg (has_g el) (measurement el) (Some zoomIdentity) (g_transform el) (presentation el).
Proof.
  intros Hz Hm Hbox.
  assert (strict_eq (box_width box) 0 || strict_eq (box_height box) 0 = true) as Hzero.
  { unfold strict_eq. destruct Hbox as [-> | ->]; [reflexivity | apply orb_true_r]. }
  unfold fit_element. simpl. rewrite Hm, Hzero.
  unfold call_zoom, zoomTransform. rewrite Hz, Hm. reflexivity.
Qed.

(** The transform of the initial fit on a box of positive width and height. *)
Lemma fit_positive_box (cw ch : float) (box : SVGRect) :
  (0 <? box_width box) = true ->
  (0 <? box_height box) = true ->
  let scale := Math_min (Math_min ((cw - 40) / box_width box) ((ch - 40) / box_height box)) 1 in
  fit cw ch box =
    mkTransform scale
      (0 + ((cw - box_width box * scale) / 2 - box_x box * scale))
      (0 + ((ch - box_height box * scale) / 2 - box_y box * scale)).
Proof.
  intros Hw Hh scale.
  rewrite (fit_nonempty _ _ _ (positive_not_zero _ Hw) (positive_not_zero _ Hh)).
  unfold initialTransform. cbv zeta. apply translate_scale_identity.
Qed.

(** C1 (as the code has it).  For a content box of positive width and
    height, the initial fit applies
    [scale = min((containerWidth - 40) / contentWidth,
                 (containerHeight - 40) / contentHeight)] capped at 1, the
    padding of 40 being subtracted once (20 on each side), and the centring
    translation [(containerWidth - contentWidth * scale) / 2 - box.x * scale]
    (likewise for y), which d3 stores as [0 + x]; this is the specification's
    formula for a padding of 20.  In particular a 400 x 400 box at the origin
    in an 800 x 400 container gets scale 0.9 and translation (220, 20). *)
Theorem fit_scale_and_translate (cw ch : float) (box : SVGRect) :
  (0 <? box_width box) = true ->
  (0 <? box_height box) = true ->
  let scale := Math_min (Math_min ((cw - 40) / box_width box) ((ch - 40) / box_height box)) 1 in
  fit cw ch box =
    mkTransform scale
      (0 + ((cw - box_width box * scale) / 2 - box_x box * scale))
      (0 + ((ch - box_height box * scale) / 2 - box_y box * scale))
  /\ fit cw ch box =
       (let t := spec_fit cw ch box 20 in mkTransform (k t) (0 + x t) (0 + y t))
  /\ fit 800 400 (mkSVGRect 0 0 400 400) = mkTransform 0.9 220 20.
Proof.
  intros Hw Hh scale.
  rewrite (fit_positive_box cw ch box Hw Hh).
  split; [reflexivity|]. split; [|reflexivity].
  unfold spec_fit, strict_eq.
  rewrite (positive_not_zero _ Hw), (positive_not_zero _ Hh). reflexivity.
Qed.

Lemma fit_scale_and_translate_witness :
  let scale := Math_min (Math_min ((1000 - 40) / 480) ((300 - 40) / 520)) 1 in
  fit 1000 300 (mkSVGRect 10 5 480 520) =
    mkTransform scale
      (0 + ((1000 - 480 * scale) / 2 - 10 * scale))
      (0 + ((300 - 520 * scale) / 2 - 5 * scale))
  /\ fit 1000 300 (mkSVGRect 10 5 480 520) =
       (let t := spec_fit 1000 300 (mkSVGRect 10 5 480 520) 20 in
        mkTransform (k t) (0 + x t) (0 + y t))
  /\ fit 800 400 (mkSVGRect 0 0 400 400) = mkTransform 0.9 220 20.
Proof.
  exact (fit_scale_and_translate 1000 300 (mkSVGRect 10 5 480 520) eq_refl eq_refl).
Defined.

(** C1 as the specification states it fails on its own example: with the
    padding of 40 taken on each side the result would be scale 0.8 and
    translation (240, 40); the effect gives scale 0.9 and (220, 20). *)
Lemma fit_example_differs_from_spec :
  spec_fit 800 400 (mkSVGRect 0 0 400 400) 40 = mkTransform 0.8 240 40
  /\ fit 800 400 (mkSVGRect 0 0 400 400) = mkTransform 0.9 220 20
  /\ k (fit 800 400 (mkSVGRect 0 0 400 400)) <> 0.8
  /\ x (fit 800 400 (mkSVGRect 0 0 400 400)) <> 240
  /\ y (fit 800 400 (mkSVGRect 0 0 400 400)) <> 40.
Proof.
  split; [reflexivity|]. split; [reflexivity|].
  split; [|split]; float_neq.
Qed.

(** C4.  For every container, when the content box has width 0 or height 0
    the effect skips the centring: the view transform of the freshly
    rendered diagram is the identity [{scale: 1, translateX: 0,
    translateY: 0}], no component of it is [NaN], and the content group's
    transform attribute is not written. *)
Theorem fit_empty_box_is_identity (cw ch : float) (box : SVGRect) :
  (box_width box =? 0) = true \/ (box_height box =? 0) = true ->
  fit cw ch box = mkTransform 1 0 0
  /\ is_nan (k (fit cw ch box)) || is_nan (x (fit cw ch box)) || is_nan (y (fit cw ch box))
     = false
  /\ g_transform <$> svg (useD3Zoom_effect (page cw ch box)) = Some None.
Proof.
  intros Hbox.
  assert (useD3Zoom_effect (page cw ch box)
          = mkView true "<svg><g></g></svg>"
              (Some (mkSvg true (Measured (mkDOMRect cw ch) box) (Some zoomIdentity) None
                           (Some responsive)))
              true true) as Heff.
  { unfold useD3Zoom_effect, page. simpl.
    rewrite (fit_element_empty_box (configure (rendered (mkDOMRect cw ch) box))
               (mkDOMRect cw ch) box eq_refl eq_refl Hbox).
    reflexivity. }
  unfold fit. rewrite Heff. repeat split.
Qed.

Lemma fit_empty_box_is_identity_witness :
  fit 800 400 (mkSVGRect 3 4 0 25) = mkTransform 1 0 0
  /\ is_nan (k (fit 800 400 (mkSVGRect 3 4 0 25)))
     || is_nan (x (fit 800 400 (mkSVGRect 3 4 0 25)))
     || is_nan (y (fit 800 400 (mkSVGRect 3 4 0 25))) = false
  /\ g_transform <$> svg (useD3Zoom_effect (page 800 400 (mkSVGRect 3 4 0 25))) = Some None.
Proof.
  exact (fit_empty_box_is_identity 800 400 (mkSVGRect 3 4 0 25) (or_introl eq_refl)).
Defined.

(** C5 at its failing input.  [resetZoom] has no test for an empty box: for
    an empty box at the origin in an 800 x 400 container the effect leaves
    the identity, while the reset divides by zero and rests on scale 1 and
    translation (400, 200); in a container 40 px wide it rests on [NaN]. *)
Theorem reset_empty_box_differs_from_fit :
  fit 800 400 (mkSVGRect 0 0 0 0) = mkTransform 1 0 0
  /\ reset 800 400 (mkSVGRect 0 0 0 0) = mkTransform 1 400 200
  /\ reset 800 400 (mkSVGRect 0 0 0 0) <> fit 800 400 (mkSVGRect 0 0 0 0)
  /\ fit 40 400 (mkSVGRect 0 0 0 10) = mkTransform 1 0 0
  /\ reset 40 400 (mkSVGRect 0 0 0 10) = mkTransform nan nan nan.
Proof.
  split; [reflexivity|]. split; [reflexivity|]. split; [|split; reflexivity].
  intros H. apply (f_equal x) in H. revert H. float_neq.
Qed.

(** C7 as the specification states it fails after the initial fit:
    [zoomBehavior.transform] stores the computed transform without applying
    the scale extent, so a wide diagram is fitted at a scale below the
    minimum 0.1, and panning keeps that scale; in a container only 40 px
    wide the fitted scale is 0.  It also fails for a gesture on a scale that
    is not a number: after [resetZoom] on a box of width 0 in a container
    40 px wide the scale is [NaN], and a wheel gesture leaves it [NaN]. *)
Lemma fit_scale_below_extent :
  fit 800 400 (mkSVGRect 0 0 10000 100) = mkTransform 0.076 20 196.2
  /\ between 0.1 8 (k (fit 800 400 (mkSVGRect 0 0 10000 100))) = false
  /\ between 0.1 8
       (k (zoomTransform
             (user_gesture
                (fit_element (rendered (mkDOMRect 800 400) (mkSVGRect 0 0 10000 100)))
                (Pan 5 5)))) = false
  /\ (0 <? k (fit 40 400 (mkSVGRect 0 0 400 400))) = false
  /\ is_nan (k (reset 40 400 (mkSVGRect 0 0 0 10))) = true
  /\ is_nan (k (view_transform
                  (view_gesture
                     (resetZoom (useD3Zoom_effect (page 40 400 (mkSVGRect 0 0 0 10))))
                     (Wheel 2 0 0)))) = true
  /\ between 0.1 8
       (k (view_transform
             (view_gesture
                (resetZoom (useD3Zoom_effect (page 40 400 (mkSVGRect 0 0 0 10))))
                (Wheel 2 0 0)))) = false.
Proof. repeat split; reflexivity. Qed.

(** A number that is at most another is not above it. *)
Lemma leb_ltb_false (a b : float) : (a <=? b) = true -> (b <? a) = false.
Proof.
  rewrite FloatAxioms.leb_spec, FloatAxioms.ltb_spec. unfold SFleb, SFltb.
  rewrite (SFcompare_swap (Prim2SF a) (Prim2SF b)).
  destruct (SFcompare (Prim2SF a) (Prim2SF b)) as [[]|]; cbn; congruence.
Qed.

(** [Math.min] returns a number only for two numbers. *)
Lemma Math_min_numeric (a b : float) :
  is_nan (Math_min a b) = false -> is_nan a = false /\ is_nan b = false.
Proof.
  intros H.
  destruct (Math_min_cases a b) as [[_ Hle] | [[_ Hle] | [E _]]].
  - split; [exact (leb_not_nan_l _ _ Hle) | exact (leb_not_nan_r _ _ Hle)].
  - split; [exact (leb_not_nan_r _ _ Hle) | exact (leb_not_nan_l _ _ Hle)].
  - rewrite E in H. discriminate.
Qed.

(** C7 (as the code has it).  A zoom gesture of the user that asks for a
    scale that is a number (the current scale times the gesture's factor is
    not [NaN]) leaves the scale within the extent [0.1, 8], hence above 0,
    and panning leaves the scale as it is.  The initial fit and the reset
    store
    [min((containerWidth - 40) / contentWidth,
         (containerHeight - 40) / contentHeight, 1)] unclamped: for a box of
    positive size it is never above 1 (at most 1 when it is a number), and
    it lies within [0.1, 8] exactly when both ratios are at least 0.1. *)
Theorem scale_bounds (el : SvgElement) (factor nx ny cw ch : float) (box : SVGRect) :
  is_nan (k (zoomTransform el) * factor) = false ->
  (0 <? box_width box) = true ->
  (0 <? box_height box) = true ->
  between 0.1 8 (k (zoomTransform (user_gesture el (Wheel factor nx ny)))) = true
  /\ k (zoomTransform (user_gesture el (Pan nx ny))) = k (zoomTransform el)
  /\ k (fit cw ch box)
     = Math_min (Math_min ((cw - 40) / box_width box) ((ch - 40) / box_height box)) 1
  /\ (1 <? k (fit cw ch box)) = false
  /\ (is_nan (k (fit cw ch box)) = false -> (k (fit cw ch box) <=? 1) = true)
  /\ (between 0.1 8 (k (fit cw ch box)) = true <->
      (0.1 <=? (cw - 40) / box_width box) = true
      /\ (0.1 <=? (ch - 40) / box_height box) = true)
  /\ reset cw ch box = fit cw ch box.
Proof.
  intros Hnan Hw Hh.
  split; [|split; [reflexivity|]].
  { unfold user_gesture, call_transform, on_zoom, zoomTransform at 1. simpl.
    apply clamp_between; [reflexivity | exact Hnan]. }
  pose proof (positive_not_zero _ Hw) as Hw0. pose proof (positive_not_zero _ Hh) as Hh0.
  rewrite (reset_eq_fit_nonempty _ _ _ Hw0 Hh0).
  rewrite (fit_positive_box cw ch box Hw Hh). cbn [k].
  set (r1 := (cw - 40) / box_width box) in *. set (r2 := (ch - 40) / box_height box) in *.
  assert (is_nan r1 = false -> is_nan r2 = false ->
          (Math_min (Math_min r1 r2) 1 <=? 1) = true
          /\ (Math_min (Math_min r1 r2) 1 <=? Math_min r1 r2) = true) as Hnum.
  { intros Hrw Hrh. pose proof (Math_min_not_nan r1 r2 Hrw Hrh) as Hm.
    split; [exact (Math_min_le_r _ 1 Hm eq_refl) | exact (Math_min_le_l _ 1 Hm eq_refl)]. }
  split; [reflexivity|]. split; [|split; [|split; [|reflexivity]]].
  - destruct (Math_min_cases (Math_min r1 r2) 1) as [[-> Hle] | [[-> _] | [-> _]]];
      [exact (leb_ltb_false _ _ Hle) | reflexivity | reflexivity].
  - intros Hk. apply Math_min_numeric in Hk. destruct Hk as [Hm _].
    apply Math_min_numeric in Hm. destruct Hm as [Hrw Hrh].
    exact (proj1 (Hnum Hrw Hrh)).
  - unfold between. split.
    + intros H. apply andb_prop in H as [Hlo _].
      pose proof (leb_not_nan_r _ _ Hlo) as Hk. apply Math_min_numeric in Hk.
      destruct Hk as [Hm _]. apply Math_min_numeric in Hm. destruct Hm as [Hrw Hrh].
      destruct (Hnum Hrw Hrh) as [_ Hlem].
      pose proof (leb_trans _ _ _ Hlo Hlem) as Hlo'.
      split.
      * exact (leb_trans _ _ _ Hlo' (Math_min_le_l r1 r2 Hrw Hrh)).
      * exact (leb_trans _ _ _ Hlo' (Math_min_le_r r1 r2 Hrw Hrh)).
    + intros [H1 H2].
      destruct (Hnum (leb_not_nan_r _ _ H1) (leb_not_nan_r _ _ H2)) as [Hle1 _].
      rewrite (Math_min_glb 0.1 _ 1 (Math_min_glb 0.1 r1 r2 H1 H2) eq_refl). simpl.
      apply (leb_trans _ 1 _ Hle1). reflexivity.
Qed.

Lemma scale_bounds_witness :
  between 0.1 8
    (k (zoomTransform
          (user_gesture (fit_element (rendered (mkDOMRect 800 400) (mkSVGRect 0 0 400 400)))
                        (Wheel 1000 7 9)))) = true
  /\ k (zoomTransform
          (user_gesture (fit_element (rendered (mkDOMRect 800 400) (mkSVGRect 0 0 400 400)))
                        (Pan 7 9)))
     = k (zoomTransform (fit_element (rendered (mkDOMRect 800 400) (mkSVGRect 0 0 400 400))))
  /\ k (fit 800 400 (mkSVGRect 0 0 400 400))
     = Math_min (Math_min ((800 - 40) / 400) ((400 - 40) / 400)) 1
  /\ (1 <? k (fit 800 400 (mkSVGRect 0 0 400 400))) = false
  /\ (is_nan (k (fit 800 400 (mkSVGRect 0 0 400 400))) = false ->
      (k (fit 800 400 (mkSVGRect 0 0 400 400)) <=? 1) = true)
  /\ (between 0.1 8 (k (fit 800 400 (mkSVGRect 0 0 400 400))) = true <->
      (0.1 <=? (800 - 40) / 400) = true /\ (0.1 <=? (400 - 40) / 400) = true)
  /\ reset 800 400 (mkSVGRect 0 0 400 400) = fit 800 400 (mkSVGRect 0 0 400 400).
Proof.
  exact (scale_bounds (fit_element (rendered (mkDOMRect 800 400) (mkSVGRect 0 0 400 400)))
           1000 7 9 800 400 (mkSVGRect 0 0 400 400)
           eq_refl eq_refl eq_refl).
Defined.

End Viewport.

(** ** Building the simulation from the props *)

Module GraphModel.
Import JS D3Force DependencyGraph.
Local Open Scope float_scope.

Section NodeById.
Implicit Types (ns : list SimNode) (m : gmap string nat) (s : string).

(** An id found in the map built by [forceLink] belongs to one of the
    nodes, or was in the map before. *)
Lemma nodeById_fold_lookup ns m s i :
  foldl (fun m n => <[id n := index n]> m) m ns !! s = Some i ->
  (exists n, n ∈ ns /\ id n = s /\ index n = i) \/ m !! s = Some i.
Proof.
  revert m. induction ns as [|n ns IH]; simpl; intros m H; [now right|].
  apply IH in H as [(n' & Hin & Hid & Hix) | H].
  - left. exists n'. split; [now right | auto].
  - destruct (decide (id n = s)) as [E | E].
    + rewrite E, lookup_insert_eq in H. left. exists n.
      split; [left | split; congruence].
    + rewrite lookup_insert_ne in H by exact E. now right.
Qed.

Lemma nodeById_fold_is_Some ns m s :
  s ∈ (id <$> ns) \/ is_Some (m !! s) ->
  is_Some (foldl (fun m n => <[id n := index n]> m) m ns !! s).
Proof.
  revert m. induction ns as [|n ns IH]; simpl; intros m H.
  - destruct H as [H | H]; [inversion H | exact H].
  - apply IH. destruct H as [H | H].
    + apply elem_of_cons in H as [-> | H]; [right | now left].
      rewrite lookup_insert_eq. eauto.
    + right. destruct (decide (id n = s)) as [-> | E].
      * rewrite lookup_insert_eq. eauto.
      * rewrite lookup_insert_ne by exact E. exact H.
Qed.

End NodeById.

Section Initialized.
Context (seed : nat -> float * float) (ds : list DependencyNode).

Let ns : list SimNode := initializeNodes node_id node_category seed ds.

Lemma initialized_ids : id <$> ns = node_id <$> ds.
Proof.
  subst ns. unfold initializeNodes.
  apply list_eq. intros i. rewrite !list_lookup_fmap, list_lookup_imap.
  destruct (ds !! i); reflexivity.
Qed.

(** Every node sits in the array at its own [index]. *)
Lemma initialized_index (n : SimNode) : n ∈ ns -> ns !! index n = Some n.
Proof.
  subst ns. unfold initializeNodes. intros H.
  apply elem_of_lookup_imap in H as (i & d & -> & Hd). simpl.
  rewrite list_lookup_imap, Hd. reflexivity.
Qed.

(** [nodeById] knows exactly the ids of the nodes, and answers with a node
    that carries the id. *)
Lemma nodeById_known (s : string) :
  s ∈ (node_id <$> ds) -> is_Some (nodeById ns !! s).
Proof.
  intros H. unfold nodeById. apply nodeById_fold_is_Some. left.
  rewrite initialized_ids. exact H.
Qed.

Lemma nodeById_sound (s : string) (i : nat) :
  nodeById ns !! s = Some i -> exists n, ns !! i = Some n /\ id n = s.
Proof.
  unfold nodeById. intros H.
  apply nodeById_fold_lookup in H as [(n & Hin & Hid & Hix) | H].
  - exists n. split; [|exact Hid]. rewrite <- Hix. now apply initialized_index.
  - rewrite lookup_empty in H. discriminate.
Qed.

(** Links whose two ids are known resolve, each to nodes that carry its
    ids. *)
Lemma resolve_links_known (ls : list DependencyLink) (i : nat) :
  Forall (fun l => link_source l ∈ (node_id <$> ds) /\ link_target l ∈ (node_id <$> ds)) ls ->
  exists out,
    resolve_links (nodeById ns) i ((fun l => (link_source l, link_target l)) <$> ls) = Ok out
    /\ resolved_ends ns <$> out = Some <$> ls.
Proof.
  intros H. revert i. induction H as [|l ls [Hs Ht] _ IH]; intros i.
  - exists []. split; reflexivity.
  - rewrite fmap_cons. cbn [resolve_links]. unfold find.
    destruct (nodeById_known _ Hs) as [a Ha]. destruct (nodeById_known _ Ht) as [b Hb].
    rewrite Ha, Hb. cbn [bind].
    destruct (IH (S i)) as (out & -> & Hout). cbn [bind].
    exists (mkLink a b i :: out). split; [reflexivity|].
    rewrite fmap_cons, Hout. f_equal.
    destruct (nodeById_sound _ _ Ha) as (na & Ea & Hna).
    destruct (nodeById_sound _ _ Hb) as (nb & Eb & Hnb).
    unfold resolved_ends. cbn [source target]. rewrite Ea, Eb, Hna, Hnb.
    destruct l; reflexivity.
Qed.

End Initialized.

(** The links the effect keeps, read with list membership. *)
Lemma kept_links (nodes : list DependencyNode) (links : list DependencyLink) :
  filter (fun l => link_source l ∈ (list_to_set (node_id <$> nodes) : gset string)
                   /\ link_target l ∈ (list_to_set (node_id <$> nodes) : gset string)) links
  = filter (fun l => link_source l ∈ (node_id <$> nodes)
                     /\ link_target l ∈ (node_id <$> nodes)) links.
Proof.
  apply list_filter_iff. intros l. rewrite !elem_of_list_to_set. reflexivity.
Qed.

(** What [build] returns, for any props. *)
Lemma build_result (seed : nat -> float * float) (dims : Dimensions)
    (nodes : list DependencyNode) (links : list DependencyLink) :
  exists resolved,
    build seed dims nodes links
    = Ok (mkState (forceSimulation (initializeNodes node_id node_category seed nodes))
            resolved (mkParams 100 (-300) (width dims / 2, height dims / 2) 30))
    /\ resolved_ends (initializeNodes node_id node_category seed nodes) <$> resolved
       = Some <$> filter (fun l => link_source l ∈ (node_id <$> nodes)
                                   /\ link_target l ∈ (node_id <$> nodes)) links.
Proof.
  unfold build, forceLink_initialize. rewrite !list_fmap_id. simpl.
  rewrite kept_links.
  destruct (resolve_links_known seed nodes
              (filter (fun l => link_source l ∈ (node_id <$> nodes)
                                /\ link_target l ∈ (node_id <$> nodes)) links) 0)
    as (out & Hout & Hends).
  { apply Forall_forall. intros l Hl. now apply list_elem_of_filter in Hl as [Hl _]. }
  exists out. rewrite Hout. simpl. split; [reflexivity | exact Hends].
Qed.

(** C2 as the specification states it fails: two nodes with one id are
    accepted.  The id list has a duplicate and [build] returns a simulation
    that holds both nodes. *)
Lemma build_accepts_duplicate_ids :
  let nodes := [mkDepNode "react" Framework; mkDepNode "react" Library] in
  ~ NoDup (node_id <$> nodes)
  /\ exists st,
       build (fun _ => (300, 200)) (mkDims 600 400) nodes [mkDepLink "react" "react"] = Ok st
       /\ id <$> D3Force.nodes (simulation st) = ["react"; "react"]
       /\ simulationLinks st = [mkLink 1 1 0].
Proof.
  split.
  - intros H. apply NoDup_cons in H as [H _]. apply H. left.
  - eexists. split; [vm_compute; reflexivity|]. split; reflexivity.
Qed.

(** C2 (as the code has it).  [build] has no validation of the node ids: for
    every node list, with or without duplicate ids, and every edge list it
    succeeds, and the simulation holds one node per input node, in order,
    duplicates included. *)
Theorem build_never_fails (seed : nat -> float * float) (dims : Dimensions)
    (nodes : list DependencyNode) (links : list DependencyLink) :
  exists st,
    build seed dims nodes links = Ok st
    /\ id <$> D3Force.nodes (simulation st) = node_id <$> nodes
    /\ category <$> D3Force.nodes (simulation st) = node_category <$> nodes.
Proof.
  destruct (build_result seed dims nodes links) as (resolved & -> & _).
  eexists. split; [reflexivity|]. simpl. split.
  - apply initialized_ids.
  - unfold initializeNodes. apply list_eq. intros i.
    rewrite !list_lookup_fmap, list_lookup_imap. destruct (nodes !! i); reflexivity.
Qed.

(** C3.  [build] succeeds whatever ids the edges name, and the links of the
    simulation are, in order, exactly the input edges whose source id and
    target id both occur among the node ids. *)
Theorem build_drops_dangling_links (seed : nat -> float * float) (dims : Dimensions)
    (nodes : list DependencyNode) (links : list DependencyLink) :
  exists st,
    build seed dims nodes links = Ok st
    /\ resolved_ends (D3Force.nodes (simulation st)) <$> simulationLinks st
       = Some <$> filter (fun l => link_source l ∈ (node_id <$> nodes)
                                   /\ link_target l ∈ (node_id <$> nodes)) links.
Proof.
  destruct (build_result seed dims nodes links) as (resolved & -> & H).
  eexists. split; [reflexivity | exact H].
Qed.

(** C10.  With an empty node list the effect returns before it clears the
    surface: the component is left as it was.  Across the re-render only the
    cleanup of the previous effect runs, which stops the previous
    simulation: the surface and the node positions are untouched, no
    simulation is built and no further frame changes anything. *)
Theorem empty_nodes_leave_graph_unchanged (seed : nat -> float * float) (F : Forces)
    (g : Graph) (links : list DependencyLink) :
  effect seed g [] links = g
  /\ rerender seed g [] links = cleanup g
  /\ svgRef (rerender seed g [] links) = svgRef g
  /\ (D3Force.nodes ∘ simulation) <$> mounted (rerender seed g [] links)
     = (D3Force.nodes ∘ simulation) <$> mounted g
  /\ animate F (rerender seed g [] links) = rerender seed g [] links.
Proof.
  assert (forall g', effect seed g' [] links = g') as He.
  { intros g'. unfold effect. destruct (svgRef g'); reflexivity. }
  unfold rerender. rewrite !He.
  split; [reflexivity|]. split; [reflexivity|].
  unfold cleanup, animate. destruct (mounted g) as [st|] eqn:Hm; simpl; rewrite ?Hm; auto.
Qed.

End GraphModel.

(** ** The running simulation: clamping, pinning, stopping *)

Module Simulator.
Import JS D3Force DependencyGraph FloatOrder.
Local Open Scope float_scope.

Section Run.
Context (F : Forces) (dims : Dimensions).

Let listener : list SimNode -> list SimNode := on_tick dims.


Lemma nodes_step (h : list SimNode -> list SimNode) (s : Simulation) :
  nodes (step F h s) = h (nodes (tick F s)).
Proof. unfold step. simpl. destruct (_ <? _); reflexivity. Qed.


Lemma clamp_node_in_box (d : SimNode) :
  has_room dims = true -> numeric d = true ->
  in_box dims (clamp_node dims d) = true
  /\ is_finite (x (clamp_node dims d)) = true
  /\ is_finite (y (clamp_node dims d)) = true.
Proof.
  unfold has_room, numeric, in_box. intros Hroom Hnum.
  apply andb_prop in Hnum as [Hx Hy]. apply negb_true_iff in Hx, Hy.
  apply andb_prop in Hroom as [Hroom Hfh]. apply andb_prop in Hroom as [Hroom Hh].
  apply andb_prop in Hroom as [Hw Hfw].
  pose proof (clamp_between 20 (width dims - 20) (x d) Hw Hx) as Bx.
  pose proof (clamp_between 20 (height dims - 20) (y d) Hh Hy) as By.
  simpl. rewrite Bx, By. split; [reflexivity|]. split.
  - exact (between_finite 20 _ _ eq_refl Hfw Bx).
  - exact (between_finite 20 _ _ eq_refl Hfh By).
Qed.

(** The positions are in the box and finite. *)
Let settled (s : Simulation) : Prop :=
  Forall (fun d => in_box dims d = true
                   /\ is_finite (x d) = true /\ is_finite (y d) = true) (nodes s).

Lemma frame_settles (s : Simulation) :
  has_room dims = true ->
  (timer s = true -> forallb numeric (nodes (tick F s)) = true) ->
  timer s = true \/ settled s ->
  settled (frame F listener s).
Proof.
  intros Hroom Hnum Hs. unfold frame. destruct (timer s) eqn:Ht.
  - unfold settled. rewrite nodes_step. subst listener. unfold on_tick.
    apply Forall_fmap, Forall_forall. intros d Hd. simpl.
    apply clamp_node_in_box; [exact Hroom|].
    specialize (Hnum eq_refl). rewrite forallb_forall in Hnum.
    apply Hnum. now apply list_elem_of_In.
  - destruct Hs as [Hs | Hs]; [discriminate | exact Hs].
Qed.

Lemma frames_settle (n : nat) (s : Simulation) :
  has_room dims = true ->
  timer s = true \/ settled s ->
  (forall j, (j <= n)%nat -> timer (frames F listener j s) = true ->
             forallb numeric (nodes (tick F (frames F listener j s))) = true) ->
  settled (frames F listener (S n) s).
Proof.
  intros Hroom. revert s. induction n as [|n IH]; intros s Hs Hnum.
  - simpl. apply frame_settles; [exact Hroom | | exact Hs]. apply (Hnum 0%nat). lia.
  - change (frames F listener (S (S n)) s) with (frames F listener (S n) (frame F listener s)).
    apply IH.
    + right. apply frame_settles; [exact Hroom | | exact Hs]. apply (Hnum 0%nat). lia.
    + intros j Hj. apply (Hnum (S j)). lia.
Qed.



End Run.

(** The alpha schedule does not depend on the nodes, the forces or the
    listener. *)
Lemma clock_frame_frame (F : Forces) (h : list SimNode -> list SimNode) (s : Simulation) :
  clock (frame F h s) = clock_frame (clock s).
Proof.
  unfold frame, clock_frame, clock, step. simpl. destruct (timer s) eqn:Ht; simpl.
  - destruct (_ <? _); simpl; rewrite ?Ht; reflexivity.
  - rewrite Ht. reflexivity.
Qed.

Lemma clock_frames (F : Forces) (h : list SimNode -> list SimNode) (n : nat) (s : Simulation) :
  clock (frames F h n s) = Nat.iter n clock_frame (clock s).
Proof.
  revert s. induction n as [|n IH]; intros s; [reflexivity|].
  simpl frames. rewrite IH, clock_frame_frame. symmetry. apply Nat.iter_succ_r.
Qed.

Lemma frames_add (F : Forces) (h : list SimNode -> list SimNode) (n m : nat) (s : Simulation) :
  frames F h (n + m) s = frames F h m (frames F h n s).
Proof. revert s. induction n as [|n IH]; intros s; [reflexivity|]. simpl. apply IH. Qed.

Lemma frames_stopped (F : Forces) (h : list SimNode -> list SimNode) (m : nat) (s : Simulation) :
  timer s = false -> frames F h m s = s.
Proof.
  intros Ht. induction m as [|m IH]; [reflexivity|].
  simpl. unfold frame. rewrite Ht. exact IH.
Qed.




(** The listener bounds every number, the infinities included, but
    [Math.min] and [Math.max] hand a [NaN] through. *)
Lemma listener_keeps_nan :
  (fun d => (x d, y d))
    <$> on_tick (mkDims 600 400)
          [mkNode "app" Core 0 nan infinity 0 0 None None;
           mkNode "d3" Library 1 neg_infinity 200 0 0 None None]
  = [(nan, 380); (20, 200)].
Proof. reflexivity. Qed.

(** Where the container has room for the margin (the intervals
    [20, width - 20] and [20, height - 20] are not empty and end on finite
    numbers, that is, the container is at least 40 px wide and high), the
    listener does what it is there for: as long as d3's integration yields
    numbers, after every tick every node lies in the container minus the
    20 px margin, at a finite position. *)
Lemma positions_clamped_after_every_tick (F : Forces) (dims : Dimensions)
    (s : Simulation) (n : nat) :
  has_room dims = true ->
  timer s = true ->
  (forall j, (j <= n)%nat -> timer (frames F (on_tick dims) j s) = true ->
             forallb numeric (nodes (tick F (frames F (on_tick dims) j s))) = true) ->
  Forall (fun d => in_box dims d = true /\ is_finite (x d) = true /\ is_finite (y d) = true)
         (nodes (frames F (on_tick dims) (S n) s)).
Proof.
  intros Hroom Ht Hnum. apply (frames_settle F dims n s Hroom); [now left | exact Hnum].
Qed.

Lemma positions_clamped_after_every_tick_witness :
  Forall (fun d => in_box (mkDims 600 400) d = true
                   /\ is_finite (x d) = true /\ is_finite (y d) = true)
         (nodes (frames no_forces (on_tick (mkDims 600 400)) 3
                   (forceSimulation
                      (initializeNodes node_id node_category
                         (fun i => if Nat.eqb i 0 then (-50, 1000) else (300, 200))
                         [mkDepNode "app" Core; mkDepNode "d3" Library])))).
Proof.
  apply (positions_clamped_after_every_tick no_forces (mkDims 600 400) _ 2).
  - reflexivity.
  - reflexivity.
  - intros j Hj _. destruct j as [|[|[|j]]]; [vm_compute; reflexivity .. | lia].
Defined.

(** C9.  Whatever the nodes, the links, the forces and the listener, the
    simulation the component builds stops on its 300th tick: alpha starts at
    1 and moves towards its target 0 by the factor [1 - alphaDecay] on every
    tick, the timer runs while alpha is at least [alphaMin = 0.001], and is
    stopped, for good, as soon as it is below. *)
Theorem simulation_stops_after_300_ticks (F : Forces)
    (h : list SimNode -> list SimNode) (ns : list SimNode) (m : nat) :
  timer (frames F h 299 (forceSimulation ns)) = true
  /\ timer (frames F h 300 (forceSimulation ns)) = false
  /\ (alpha (frames F h 300 (forceSimulation ns)) <? 0.001) = true
  /\ frames F h (300 + m) (forceSimulation ns) = frames F h 300 (forceSimulation ns)
  /\ forall seed dims nodes links,
       exists st, build seed dims nodes links = Ok st
                  /\ timer (frames F (on_tick dims) 300 (simulation st)) = false.
Proof.
  assert (forall h' ns', clock (frames F h' 300 (forceSimulation ns'))
                         = Nat.iter 300 clock_frame (clock (forceSimulation ns'))) as H300
    by (intros; apply clock_frames).
  assert (forall h' ns', timer (frames F h' 300 (forceSimulation ns')) = false) as Hstop.
  { intros h' ns'. change (c_timer (clock (frames F h' 300 (forceSimulation ns'))) = false).
    rewrite H300. vm_compute. reflexivity. }
  split; [|split; [apply Hstop | split; [|split]]].
  - change (c_timer (clock (frames F h 299 (forceSimulation ns))) = true).
    rewrite clock_frames. vm_compute. reflexivity.
  - change ((c_alpha (clock (frames F h 300 (forceSimulation ns))) <? 0.001) = true).
    rewrite H300. vm_compute. reflexivity.
  - rewrite frames_add. apply frames_stopped, Hstop.
  - intros seed dims nodes links.
    destruct (GraphModel.build_result seed dims nodes links) as (resolved & -> & _).
    eexists. split; [reflexivity|]. cbn [simulation]. apply Hstop.
Qed.




End Simulator.

(** ** More on binary64 numbers *)

Module FloatFacts.
Import JS FloatOrder.
Local Open Scope float_scope.

(** Multiplication of binary64 numbers is commutative, bit for bit. *)
Lemma mul_comm (a b : float) : a * b = b * a.
Proof.
  apply Prim2SF_inj. rewrite !mul_spec. unfold SF64mul, SFmul.
  destruct (Prim2SF a) as [sa|sa| |sa ma ea], (Prim2SF b) as [sb|sb| |sb mb eb];
    try reflexivity; rewrite (xorb_comm sa sb); try reflexivity.
  change PosDef.Pos.mul with Pos.mul. change IntDef.Z.add with Z.add.
  rewrite (Pos.mul_comm ma mb), (Z.add_comm ea eb). reflexivity.
Qed.

Lemma mul_1_r (s : float) : s * 1 = s.
Proof. rewrite mul_comm. apply mul_1_l. Qed.

(** Two numbers that bound each other are the same number, unless they are
    the two zeros. *)
Lemma leb_antisym (a b : float) :
  (a <=? b) = true -> (b <=? a) = true -> is_zero b = false -> a = b.
Proof.
  intros Hab Hba Hz.
  destruct (a ?= b) eqn:Hc.
  - apply compare_FEq in Hc. destruct Hc as (_ & _ & [E | [_ Hzb]]); [exact E|].
    rewrite Hzb in Hz. discriminate.
  - apply compare_FLt in Hc. destruct Hc as (_ & Hf & _). rewrite Hf in Hba. discriminate.
  - apply compare_FGt in Hc. destruct Hc as (_ & Hf & _). rewrite Hf in Hab. discriminate.
  - apply compare_FNotComparable in Hc.
    rewrite (leb_not_nan_l _ _ Hab), (leb_not_nan_r _ _ Hab) in Hc.
    destruct Hc; discriminate.
Qed.

Lemma Math_min_nan_l (hi v : float) : is_nan hi = true -> is_nan (Math_min hi v) = true.
Proof.
  intros Hn.
  destruct (Math_min_cases hi v) as [[-> _] | [[_ Hle] | [-> _]]]; [assumption| |reflexivity].
  rewrite (leb_not_nan_r _ _ Hle) in Hn. discriminate.
Qed.

Lemma Math_min_nan_r (hi : float) : Math_min hi nan = nan.
Proof.
  destruct (Math_min_cases hi nan) as [[_ Hle] | [[E _] | [E _]]]; [|exact E..].
  apply leb_not_nan_r in Hle. discriminate.
Qed.

Lemma Math_max_nan_r (lo : float) : Math_max lo nan = nan.
Proof.
  destruct (Math_max_cases lo nan) as [[_ Hle] | [[E _] | [E _]]]; [|exact E..].
  apply leb_not_nan_l in Hle. discriminate.
Qed.

Lemma Math_min_same (a : float) : is_nan a = false -> Math_min a a = a.
Proof.
  intros Hn.
  destruct (Math_min_cases a a) as [[E _] | [[E _] | [_ [H | H]]]];
    [exact E..| |]; rewrite H in Hn; discriminate.
Qed.

Lemma Math_max_same (a : float) : is_nan a = false -> Math_max a a = a.
Proof.
  intros Hn.
  destruct (Math_max_cases a a) as [[E _] | [[E _] | [_ [H | H]]]];
    [exact E..| |]; rewrite H in Hn; discriminate.
Qed.

(** Clamping twice is clamping once, for every bound and every value:
    [NaN] stays [NaN], and an empty interval sends everything to [lo]. *)
Lemma clamp_idempotent (lo hi v : float) :
  (0 <? lo) = true ->
  Math_max lo (Math_min hi (Math_max lo (Math_min hi v))) = Math_max lo (Math_min hi v).
Proof.
  intros Hlo.
  destruct (Math_max_cases lo (Math_min hi v)) as [[Er Hle] | [[Er Hle] | [Er Hn]]].
  - (* the value was raised to [lo] *)
    rewrite Er.
    assert (is_nan lo = false) as Hlon by exact (leb_not_nan_r _ _ Hle).
    assert (is_nan hi = false) as Hhin.
    { destruct (is_nan hi) eqn:Hn; [|reflexivity].
      apply (Math_min_nan_l hi v) in Hn. rewrite (leb_not_nan_l _ _ Hle) in Hn. discriminate. }
    destruct (Math_min_cases hi lo) as [[-> Hhl] | [[-> _] | [_ [H | H]]]].
    + destruct (Math_max_cases lo hi) as [[E _] | [[E Hlh] | [_ [H | H]]]].
      * exact E.
      * rewrite E. symmetry. apply leb_antisym; [assumption..|].
        eapply above_positive_not_zero; eassumption.
      * rewrite H in Hlon. discriminate.
      * rewrite H in Hhin. discriminate.
    + apply Math_max_same. assumption.
    + rewrite H in Hhin. discriminate.
    + rewrite H in Hlon. discriminate.
  - (* the value passed the lower bound *)
    rewrite Er.
    destruct (Math_min_cases hi v) as [[Em Hhv] | [[Em Hvh] | [Em _]]].
    + rewrite Em in *. rewrite Math_min_same by exact (leb_not_nan_r _ _ Hle). exact Er.
    + rewrite Em in *. rewrite Em. exact Er.
    + rewrite Em in Hle. apply leb_not_nan_r in Hle. discriminate.
  - rewrite Er. rewrite Math_min_nan_r. apply Math_max_nan_r.
Qed.

End FloatFacts.

(** ** More on the viewport: early returns, the fallback and the reset *)

Module ZoomSession.
Import JS D3Zoom ChatInterface FloatOrder FloatFacts.
Local Open Scope float_scope.



(** X1.  Without a diagram the effect installs nothing.  With no container,
    no markup or no [<svg>] in the container it leaves the view exactly as
    it was.  With an [<svg>] that has no [<g>] it has already made the
    [<svg>] fill its container (width and height 100%, max-width none,
    display block, cursor grab) when it returns, and that is all it does: no
    zoom state, no transform on a content group, and the two refs are not
    filled.  In all four cases the Reset button of a view whose refs were
    never filled does nothing. *)
Theorem effect_without_diagram_installs_no_zoom (v : View) :
  container v = false \/ svgContent v = "" \/ svg v = None
    \/ (exists el, svg v = Some el /\ has_g el = false) ->
  (container v = false \/ svgContent v = "" \/ svg v = None -> useD3Zoom_effect v = v)
  /\ (forall el,
        container v = true -> svgContent v <> "" -> svg v = Some el -> has_g el = false ->
        useD3Zoom_effect v
        = mkView (container v) (svgContent v)
                 (Some (mkSvg false (measurement el) (zoom_state el) (g_transform el)
                              (Some responsive)))
                 (selectionRef v) (zoomRef v))
  /\ selectionRef (useD3Zoom_effect v) = selectionRef v
  /\ zoomRef (useD3Zoom_effect v) = zoomRef v
  /\ (selectionRef v = false \/ zoomRef v = false ->
      resetZoom (useD3Zoom_effect v) = useD3Zoom_effect v).
Proof.
  intros H.
  assert (container v = false \/ svgContent v = "" \/ svg v = None ->
          useD3Zoom_effect v = v) as Hsame.
  { intros H'. unfold useD3Zoom_effect.
    destruct (negb (container v) || String.eqb (svgContent v) EmptyString) eqn:Hguard;
      [reflexivity|].
    apply orb_false_elim in Hguard. destruct Hguard as [Hc Hs].
    destruct H' as [Hc' | [Hs' | ->]]; [| |reflexivity].
    - rewrite Hc' in Hc. discriminate.
    - rewrite Hs' in Hs. discriminate. }
  assert (forall el,
            container v = true -> svgContent v <> "" -> svg v = Some el -> has_g el = false ->
            useD3Zoom_effect v
            = mkView (container v) (svgContent v)
                     (Some (mkSvg false (measurement el) (zoom_state el) (g_transform el)
                                  (Some responsive)))
                     (selectionRef v) (zoomRef v)) as Hnog.
  { intros el Hc Hs Hsvg Hg. unfold useD3Zoom_effect. rewrite Hc, Hsvg.
    cbv beta iota zeta. unfold configure. cbn [has_g]. rewrite Hg.
    destruct (String.eqb_spec (svgContent v) EmptyString) as [E|_]; [contradiction|].
    reflexivity. }
  assert (selectionRef (useD3Zoom_effect v) = selectionRef v
          /\ zoomRef (useD3Zoom_effect v) = zoomRef v) as [Hsel Hzoom].
  { destruct H as [Hc | [Hs | [Hn | (el & Hsvg & Hg)]]];
      try (rewrite Hsame by auto; split; reflexivity).
    destruct (container v) eqn:Hc; [|rewrite Hsame by auto; split; reflexivity].
    destruct (String.eqb_spec (svgContent v) EmptyString) as [Hs|Hs];
      [rewrite Hsame by auto; split; reflexivity|].
    rewrite (Hnog el eq_refl Hs Hsvg Hg). split; reflexivity. }
  split; [exact Hsame|]. split; [exact Hnog|]. split; [exact Hsel|]. split; [exact Hzoom|].
  intros Hrefs. unfold resetZoom. rewrite Hsel, Hzoom.
  destruct Hrefs as [-> | ->]; cbn; rewrite ?orb_true_r; reflexivity.
Qed.

Lemma effect_without_diagram_installs_no_zoom_witness :
  let v := mkView true "<svg></svg>" (Some (mkSvg false MeasureThrows None None None))
                  false false in
  (container v = false \/ svgContent v = "" \/ svg v = None -> useD3Zoom_effect v = v)
  /\ (forall el,
        container v = true -> svgContent v <> "" -> svg v = Some el -> has_g el = false ->
        useD3Zoom_effect v
        = mkView (container v) (svgContent v)
                 (Some (mkSvg false (measurement el) (zoom_state el) (g_transform el)
                              (Some responsive)))
                 (selectionRef v) (zoomRef v))
  /\ selectionRef (useD3Zoom_effect v) = selectionRef v
  /\ zoomRef (useD3Zoom_effect v) = zoomRef v
  /\ (selectionRef v = false \/ zoomRef v = false ->
      resetZoom (useD3Zoom_effect v) = useD3Zoom_effect v).
Proof.
  apply (effect_without_diagram_installs_no_zoom
           (mkView true "<svg></svg>" (Some (mkSvg false MeasureThrows None None None))
                   false false)).
  right. right. right. eexists. split; reflexivity.
Defined.





(** A scale that is at least 1 on both axes is capped at exactly 1. *)
Lemma capped_scale (a b : float) :
  (1 <=? a) = true -> (1 <=? b) = true -> Math_min (Math_min a b) 1 = 1.
Proof.
  intros Ha Hb.
  assert ((1 <=? Math_min a b) = true) as Hm.
  { destruct (Math_min_cases a b) as [[-> _] | [[-> _] | [_ [Hn | Hn]]]]; try assumption.
    - rewrite (leb_not_nan_r _ _ Ha) in Hn. discriminate.
    - rewrite (leb_not_nan_r _ _ Hb) in Hn. discriminate. }
  destruct (Math_min_cases (Math_min a b) 1) as [[-> Hle] | [[-> _] | [_ [Hn | Hn]]]].
  - apply leb_antisym; [assumption..|reflexivity].
  - reflexivity.
  - rewrite (leb_not_nan_r _ _ Hm) in Hn. discriminate.
  - discriminate.
Qed.

(** X4.  A diagram that fits into the container with the padding to spare
    (both ratios [(container - 40) / content] are at least 1) is never
    magnified: the initial fit shows it at scale exactly 1, centred, with
    translation [(containerWidth - contentWidth) / 2 - box.x] and likewise
    for y (stored by d3 as [0 + x]). *)
Theorem small_diagram_is_centred_at_scale_1 (cw ch : float) (box : SVGRect) :
  (0 <? box_width box) = true ->
  (0 <? box_height box) = true ->
  (1 <=? (cw - 40) / box_width box) = true ->
  (1 <=? (ch - 40) / box_height box) = true ->
  fit cw ch box
  = mkTransform 1 (0 + ((cw - box_width box) / 2 - box_x box))
                  (0 + ((ch - box_height box) / 2 - box_y box)).
Proof.
  intros Hw Hh Ha Hb.
  rewrite (Viewport.fit_positive_box cw ch box Hw Hh). cbv zeta.
  rewrite (capped_scale _ _ Ha Hb), !mul_1_r. reflexivity.
Qed.

Lemma small_diagram_is_centred_at_scale_1_witness :
  fit 800 400 (mkSVGRect 10 5 200 100)
  = mkTransform 1 (0 + ((800 - 200) / 2 - 10)) (0 + ((400 - 100) / 2 - 5)).
Proof.
  apply (small_diagram_is_centred_at_scale_1 800 400 (mkSVGRect 10 5 200 100));
    reflexivity.
Defined.

End ZoomSession.

(** ** The PNG export of a diagram *)

Module PngExport.
Import JS ChatInterface MermaidDiagram.
Local Open Scope float_scope.

Lemma or_else_truthy (a b : float) : truthy b = true -> truthy (or_else a b) = true.
Proof. intros Hb. unfold or_else. destruct (truthy a) eqn:Ha; assumption. Qed.

(** X5.  Whenever [downloadPNG] finds an [<svg>], the width and height it
    draws with are numbers other than 0 and [NaN], whatever the [viewBox]
    attribute and the client rectangle hold.  The width is the third entry
    of the [viewBox] when that is such a number; when there is no [viewBox],
    no third entry, or the entry is 0 or [NaN], it is the client rectangle's
    width when that is such a number, and 800 otherwise.  The height is
    chosen in the same way from the fourth entry, the rectangle's height and
    600.  The numbers assigned to [canvas.width] and [canvas.height] are
    [scale] times these.  Without a container or without an [<svg>] nothing
    is sized. *)
Theorem png_is_never_drawn_with_a_zero_or_nan_size (svgElement : ExportedSvg)
    (scale : float) :
  let entry (i : nat) := viewBox svgElement ≫= (fun vb => vb !! i) in
  let rect := clientRect svgElement in
  downloadPNG None scale = None
  /\ downloadPNG (Some None) scale = None
  /\ exists c,
       downloadPNG (Some (Some svgElement)) scale = Some c
       /\ truthy (drawn_width c) = true /\ truthy (drawn_height c) = true
       /\ width_assigned c = drawn_width c * scale
       /\ height_assigned c = drawn_height c * scale
       /\ (forall w, entry 2%nat = Some w -> truthy w = true -> drawn_width c = w)
       /\ (entry 2%nat = None \/ (exists w, entry 2%nat = Some w /\ truthy w = false) ->
           (truthy (rect_width rect) = true -> drawn_width c = rect_width rect)
           /\ (truthy (rect_width rect) = false -> drawn_width c = 800))
       /\ (forall h, entry 3%nat = Some h -> truthy h = true -> drawn_height c = h)
       /\ (entry 3%nat = None \/ (exists h, entry 3%nat = Some h /\ truthy h = false) ->
           (truthy (rect_height rect) = true -> drawn_height c = rect_height rect)
           /\ (truthy (rect_height rect) = false -> drawn_height c = 600)).
Proof.
  intros entry rect.
  assert (forall i fallback last,
            truthy last = true ->
            let side := or_else (viewBox_or (viewBox svgElement) i fallback) last in
            truthy side = true
            /\ (forall w, entry i = Some w -> truthy w = true -> side = w)
            /\ (entry i = None \/ (exists w, entry i = Some w /\ truthy w = false) ->
                (truthy fallback = true -> side = fallback)
                /\ (truthy fallback = false -> side = last))) as Hside.
  { intros i fallback last Hlast side. subst side entry.
    split; [now apply or_else_truthy|].
    unfold viewBox_or, or_else. destruct (viewBox svgElement) as [vb|]; cbn.
    - destruct (vb !! i) as [w|]; cbn.
      + destruct (truthy w) eqn:Hw.
        * rewrite Hw. split; [intros w' [= <-] _; reflexivity|].
          intros [H | (w' & [= <-] & H)]; [discriminate|congruence].
        * split; [intros w' [= <-] H; congruence|].
          intros _. split; intros H; rewrite H; reflexivity.
      + split; [intros w' H; discriminate|].
        intros _. split; intros H; rewrite H; reflexivity.
    - split; [intros w' H; discriminate|].
      intros _. split; intros H; rewrite H; reflexivity. }
  split; [reflexivity|]. split; [reflexivity|].
  eexists. split; [reflexivity|].
  cbn [drawn_width drawn_height width_assigned height_assigned].
  destruct (Hside 2%nat (rect_width rect) 800 eq_refl) as (Hw1 & Hw2 & Hw3).
  destruct (Hside 3%nat (rect_height rect) 600 eq_refl) as (Hh1 & Hh2 & Hh3).
  repeat (split; [first [assumption | reflexivity]|]). assumption.
Qed.

End PngExport.

(** ** The chat: what is sent, and the sources of the streamed answer *)

Module ChatStream.
Import Chat.

Lemma existsb_uri (uri : string) (l : list Source) :
  existsb (fun s => String.eqb (source_uri s) uri) l = true <-> uri ∈ source_uri <$> l.
Proof.
  induction l as [|s l IH]; cbn.
  - split; [discriminate|]. intros H. inversion H.
  - rewrite orb_true_iff, IH, elem_of_cons.
    destruct (String.eqb_spec (source_uri s) uri) as [E|E]; split; intros [H|H];
      auto; try discriminate; try congruence.
Qed.

(** What one grounding chunk does to the sources. *)
Lemma add_source_cases (l : list Source) (c : GroundingChunk) :
  match chunk_uri c with
  | Some uri =>
      if bool_decide (uri ∈ source_uri <$> l) then add_source l c = l
      else add_source l c = l ++ [mkSource (chunk_title c) uri]
  | None => add_source l c = l
  end.
Proof.
  unfold add_source, chunk_uri, chunk_title. destruct (web c) as [w|]; [|reflexivity].
  cbn. destruct (web_uri w) as [uri|]; [|reflexivity].
  destruct (String.eqb uri "") eqn:He; [reflexivity|].
  destruct (existsb _ l) eqn:Hex.
  - apply existsb_uri in Hex. rewrite bool_decide_eq_true_2 by assumption. reflexivity.
  - rewrite bool_decide_eq_false_2; [reflexivity|].
    intros Hin. apply existsb_uri in Hin. congruence.
Qed.

Lemma chunk_uri_nonempty (c : GroundingChunk) (uri : string) :
  chunk_uri c = Some uri -> uri <> "".
Proof.
  unfold chunk_uri. destruct (web c) as [w|]; [|discriminate].
  destruct (web_uri w) as [u|]; [|discriminate].
  destruct (String.eqb_spec u "") as [E|E]; [discriminate|]. congruence.
Qed.

(** The sources after a run of grounding chunks: no uri twice, and the uris
    are those that were there plus those of the chunks. *)
Lemma add_sources (cs : list GroundingChunk) (l : list Source) :
  NoDup (source_uri <$> l) ->
  NoDup (source_uri <$> foldl add_source l cs)
  /\ l `prefix_of` foldl add_source l cs
  /\ forall uri, uri ∈ source_uri <$> foldl add_source l cs
       <-> uri ∈ source_uri <$> l \/ exists c, c ∈ cs /\ chunk_uri c = Some uri.
Proof.
  revert l. induction cs as [|c cs IH]; intros l Hnd; cbn [foldl].
  - split; [assumption|]. split; [reflexivity|].
    intros uri. split; [auto|]. intros [H | (c & Hc & _)]; [assumption|]. inversion Hc.
  - assert (NoDup (source_uri <$> add_source l c)
            /\ l `prefix_of` add_source l c
            /\ forall uri, uri ∈ source_uri <$> add_source l c
                 <-> uri ∈ source_uri <$> l \/ chunk_uri c = Some uri) as (Hnd' & Hpre & Hin).
    { pose proof (add_source_cases l c) as Hc.
      destruct (chunk_uri c) as [u|] eqn:Hu.
      - destruct (bool_decide_reflect (u ∈ source_uri <$> l)) as [Hmem|Hmem]; rewrite Hc.
        + split; [assumption|]. split; [reflexivity|].
          intros uri. split; [auto|]. intros [H|H]; [assumption|congruence].
        + split; [|split].
          * rewrite fmap_app. apply NoDup_app. split; [assumption|].
            split; [|apply NoDup_singleton].
            intros x Hx Hx'. cbn in Hx'. apply list_elem_of_singleton in Hx'. congruence.
          * now apply prefix_app_r.
          * intros uri. rewrite fmap_app, elem_of_app. cbn.
            rewrite list_elem_of_singleton. split; intros [H|H]; auto; right; congruence.
      - rewrite Hc. split; [assumption|]. split; [reflexivity|].
        intros uri. split; [auto|]. intros [H|H]; [assumption|discriminate]. }
    destruct (IH _ Hnd') as (Hnd'' & Hpre' & Hin').
    split; [assumption|]. split; [etrans; eassumption|].
    intros uri. rewrite Hin', Hin. split.
    + intros [[H|H]|(c' & Hc' & H)]; [left; assumption| |].
      * right. exists c. split; [left|assumption].
      * right. exists c'. split; [right; assumption|assumption].
    + intros [H|(c' & Hc' & H)]; [left; left; assumption|].
      apply elem_of_cons in Hc'. destruct Hc' as [->|Hc'].
      * left. right. assumption.
      * right. exists c'. split; assumption.
Qed.

(** The sources of a stream are the sources of its grounding chunks, taken
    in order. *)
Lemma receive_sources (chunks : list GenerateContentResponse) (st : string * list Source) :
  snd (foldl receive st chunks) = foldl add_source (snd st) (visited chunks).
Proof.
  revert st. induction chunks as [|c chunks IH]; intros st; [reflexivity|].
  cbn [foldl]. rewrite IH. unfold visited. cbn. rewrite foldl_app. reflexivity.
Qed.

(** X6.  The sources shown under an answer never list a uri twice, however
    the grounding chunks are spread over the stream and however often a uri
    comes back. *)
Theorem sources_never_repeat_a_uri (chunks : list GenerateContentResponse) :
  NoDup (source_uri <$> snd (receive_all chunks)).
Proof.
  unfold receive_all. rewrite receive_sources.
  apply (add_sources (visited chunks) []). constructor.
Qed.

(** X7.  A uri is among the sources of an answer exactly when some grounding
    chunk of the stream carries it as a non-empty [web.uri]; chunks without
    [web], without [uri] or with an empty [uri] contribute nothing. *)
Theorem sources_are_the_uris_of_the_stream (chunks : list GenerateContentResponse)
    (uri : string) :
  uri ∈ source_uri <$> snd (receive_all chunks)
  <-> uri <> "" /\ exists c, c ∈ visited chunks /\ chunk_uri c = Some uri.
Proof.
  unfold receive_all. rewrite receive_sources. cbn [snd].
  destruct (add_sources (visited chunks) []) as (_ & _ & Hin); [constructor|].
  rewrite Hin. split.
  - intros [H | (c & Hc & Hu)]; [inversion H|].
    split; [eapply chunk_uri_nonempty; eassumption|]. exists c. split; assumption.
  - intros (_ & c & Hc & Hu). right. exists c. split; assumption.
Qed.

Lemma filter_unique_uri (l : list Source) (x : Source) :
  NoDup (source_uri <$> l) -> x ∈ l ->
  filter (fun s => source_uri s = source_uri x) l = [x].
Proof.
  induction l as [|a l IH]; intros Hnd Hx; [inversion Hx|].
  rewrite fmap_cons in Hnd. apply NoDup_cons in Hnd. destruct Hnd as [Hfresh Hnd].
  destruct (decide (source_uri a = source_uri x)) as [E|E].
  - rewrite filter_cons_True by assumption.
    assert (x = a) as ->.
    { apply elem_of_cons in Hx. destruct Hx as [->|Hx]; [reflexivity|].
      exfalso. apply Hfresh. rewrite E. now apply list_elem_of_fmap_2. }
    f_equal.
    destruct (filter (fun s => source_uri s = source_uri a) l) as [|b r] eqn:Hf;
      [reflexivity|].
    exfalso. assert (b ∈ filter (fun s => source_uri s = source_uri a) l) as Hb
      by (rewrite Hf; left).
    apply list_elem_of_filter in Hb. destruct Hb as [Hb Hbl].
    apply Hfresh. rewrite <- Hb. now apply list_elem_of_fmap_2.
  - rewrite filter_cons_False by assumption. apply IH; [assumption|].
    apply elem_of_cons in Hx. destruct Hx as [->|Hx]; [congruence|assumption].
Qed.

(** X8.  The first mention wins: of the sources of an answer exactly one
    has a given uri, and it carries the title of the first grounding chunk
    of the stream with that uri; later chunks with the same uri, whatever
    their title, change nothing. *)
Theorem first_title_of_a_uri_wins (chunks : list GenerateContentResponse)
    (pre post : list GroundingChunk) (c : GroundingChunk) (uri : string) :
  visited chunks = pre ++ c :: post ->
  chunk_uri c = Some uri ->
  (forall c', c' ∈ pre -> chunk_uri c' <> Some uri) ->
  filter (fun s => source_uri s = uri) (snd (receive_all chunks))
  = [mkSource (chunk_title c) uri].
Proof.
  intros Hv Hu Hpre.
  unfold receive_all. rewrite receive_sources, Hv, foldl_app. cbn [snd foldl].
  destruct (add_sources pre []) as (Hnd & _ & Hin); [constructor|].
  set (l := foldl add_source [] pre) in *.
  assert (uri ∉ source_uri <$> l) as Hfresh.
  { rewrite Hin. intros [H | (c' & Hc' & Hu')]; [inversion H|]. exact (Hpre c' Hc' Hu'). }
  pose proof (add_source_cases l c) as Hc. rewrite Hu in Hc.
  rewrite bool_decide_eq_false_2 in Hc by assumption.
  assert (NoDup (source_uri <$> add_source l c)) as Hnd'.
  { apply (add_sources [c] l Hnd). }
  destruct (add_sources post (add_source l c) Hnd') as (Hnd'' & [rest Hrest] & _).
  apply (filter_unique_uri _ (mkSource (chunk_title c) uri) Hnd'').
  rewrite Hrest, Hc. apply elem_of_app. left. apply elem_of_app. right. left.
Qed.

Lemma first_title_of_a_uri_wins_witness :
  filter (fun s => source_uri s = "https://d3js.org")
    (snd (receive_all
            [mkResponse (Some "a")
               (Some [mkGroundingChunk None;
                      mkGroundingChunk (Some (mkWeb (Some "Docs") (Some "https://d3js.org")))]);
             mkResponse None
               (Some [mkGroundingChunk
                        (Some (mkWeb (Some "Again") (Some "https://d3js.org")))])]))
  = [mkSource (Some "Docs") "https://d3js.org"].
Proof.
  apply (first_title_of_a_uri_wins
           [mkResponse (Some "a")
              (Some [mkGroundingChunk None;
                     mkGroundingChunk (Some (mkWeb (Some "Docs") (Some "https://d3js.org")))]);
            mkResponse None
              (Some [mkGroundingChunk (Some (mkWeb (Some "Again") (Some "https://d3js.org")))])]
           [mkGroundingChunk None]
           [mkGroundingChunk (Some (mkWeb (Some "Again") (Some "https://d3js.org")))]
           (mkGroundingChunk (Some (mkWeb (Some "Docs") (Some "https://d3js.org"))))
           "https://d3js.org").
  - reflexivity.
  - reflexivity.
  - intros c' Hc'. apply list_elem_of_singleton in Hc'. subst c'. discriminate.
Defined.

(** The decimal print of a number is never the reserved id of the greeting. *)
Lemma pretty_N_go_ne_i (x : N) (s s' : string) :
  s <> "i" +:+ s' -> pretty_N_go x s <> "i" +:+ s'.
Proof.
  revert s. induction (N.lt_wf_0 x) as [x _ IH]; intros s Hs.
  assert (x = 0 \/ 0 < x)%N as [->|Hx] by lia.
  - now rewrite pretty_N_go_0.
  - rewrite pretty_N_go_step by assumption. apply IH.
    { now apply N.div_lt. }
    unfold pretty_N_char. repeat case_match; discriminate.
Qed.

Lemma id_is_not_init (now : N) : pretty now <> "init".
Proof.
  unfold pretty, pretty_N. destruct (decide (now = 0%N)); [discriminate|].
  apply (pretty_N_go_ne_i now "" "nit"). discriminate.
Qed.

(** X9.  The prompt reaches the model twice.  The history handed to
    [chatWithRepo] is built from the message list that already ends with the
    new user message, so its last entry is the prompt, and the same text is
    passed again as the message to send; the earlier messages come before it
    in order, without those whose id is ["init"] (the greeting). *)
Theorem prompt_is_sent_in_history_and_as_message (messages : list ChatMessage)
    (now : N * N) (input : string) (chatMode : ChatMode) :
  request messages now input chatMode
  = (history messages ++ [mkContent user [input]], input)
  /\ last (fst (request messages now input chatMode)) = Some (mkContent user [input])
  /\ (forall greeting rest, msg_id greeting = "init" ->
        history (greeting :: rest) = history rest).
Proof.
  assert (request messages now input chatMode
          = (history messages ++ [mkContent user [input]], input)) as E.
  { unfold request, newMessages, history. rewrite filter_app, fmap_app.
    rewrite filter_cons_True by apply id_is_not_init. reflexivity. }
  split; [exact E|]. rewrite E. cbn [fst].
  split; [apply last_snoc|].
  intros greeting rest Hid. unfold history.
  rewrite filter_cons_False; [reflexivity|]. intros Hne. exact (Hne Hid).
Qed.

End ChatStream.

(** ** More on the dependency graph: the listener, the drag and the re-render *)

Module GraphSession.
Import JS D3Force DependencyGraph FloatOrder FloatFacts.
Local Open Scope float_scope.

(** *** The tick listener *)

(** X10.  The tick listener is idempotent: clamping positions that were
    already clamped changes nothing, for every container size (too narrow,
    negative or [NaN] included) and every position ([NaN] and the infinities
    included).  Running the listener once more between two ticks is
    harmless. *)
Theorem tick_listener_is_idempotent (dims : Dimensions) (ns : list SimNode) :
  on_tick dims (on_tick dims ns) = on_tick dims ns.
Proof.
  unfold on_tick. rewrite <- list_fmap_compose. apply list_fmap_ext. intros _ d _.
  unfold compose, clamp_node. cbn [id category index x y vx vy fx fy].
  rewrite !clamp_idempotent by reflexivity. reflexivity.
Qed.

(** X11.  The listener moves only what is outside: a node list whose
    positions all lie in [20, width - 20] x [20, height - 20] is returned
    unchanged, so inside the box the layout is d3's own. *)
Theorem tick_listener_keeps_positions_in_the_box (dims : Dimensions) (ns : list SimNode) :
  Forall (fun d => in_box dims d = true) ns ->
  on_tick dims ns = ns.
Proof.
  intros Hin. unfold on_tick. rewrite <- (list_fmap_id ns) at 2.
  apply Forall_fmap_ext_1. eapply Forall_impl; [exact Hin|].
  intros d Hd. unfold in_box in Hd. apply andb_prop in Hd. destruct Hd as [Hx Hy].
  unfold clamp_node. rewrite !clamp_inside by (reflexivity || assumption).
  destruct d; reflexivity.
Qed.

Lemma tick_listener_keeps_positions_in_the_box_witness :
  on_tick (mkDims 600 400)
    [mkNode "app" Core 0 20 380 1 1 None None; mkNode "d3" Library 1 300.5 200 0 0 (Some 5) None]
  = [mkNode "app" Core 0 20 380 1 1 None None; mkNode "d3" Library 1 300.5 200 0 0 (Some 5) None].
Proof.
  apply (tick_listener_keeps_positions_in_the_box (mkDims 600 400)
           [mkNode "app" Core 0 20 380 1 1 None None;
            mkNode "d3" Library 1 300.5 200 0 0 (Some 5) None]).
  repeat constructor.
Defined.

(** *** The measured dimensions *)

Lemma resized_height (measurements : list (option float)) (d : Dimensions) :
  height d = 400 ->
  height (foldl (fun dims w => updateDimensions w dims) d measurements) = 400.
Proof.
  revert d. induction measurements as [|w ws IH]; intros d Hd; [exact Hd|].
  cbn [foldl]. apply IH. destruct w; [reflexivity|exact Hd].
Qed.

(** X12.  The height of the drawing area is 400 from the first render on
    and after every resize, whatever widths the container reports (none,
    zero, [NaN]); so, independently of the width, the listener keeps the y
    coordinate of every node that has one (not [NaN]) within [20, 380]. *)
Theorem height_is_400_and_y_stays_within_20_380 (measurements : list (option float))
    (d : SimNode) :
  is_nan (y d) = false ->
  let dims := foldl (fun dims w => updateDimensions w dims) initial_dimensions measurements in
  height dims = 400
  /\ between 20 380 (y (clamp_node dims d)) = true.
Proof.
  intros Hy dims.
  assert (height dims = 400) as Hh by (apply resized_height; reflexivity).
  split; [exact Hh|].
  unfold clamp_node. cbn [y]. rewrite Hh. change (400 - 20) with 380.
  apply clamp_between; [reflexivity|exact Hy].
Qed.

Lemma height_is_400_and_y_stays_within_20_380_witness :
  let dims := foldl (fun dims w => updateDimensions w dims) initial_dimensions
                    [None; Some 10; Some nan] in
  height dims = 400
  /\ between 20 380 (y (clamp_node dims (mkNode "app" Core 0 5 infinity 0 0 None None))) = true.
Proof.
  apply (height_is_400_and_y_stays_within_20_380 [None; Some 10; Some nan]
           (mkNode "app" Core 0 5 infinity 0 0 None None)).
  reflexivity.
Defined.

(** *** Frames and drags on a mounted simulation *)

Lemma nodes_dragstarted (e : DragEvent) (s : Simulation) :
  nodes (dragstarted e s)
  = alter (fun d => set_pin (Some (x d)) (Some (y d)) d) (subject e) (nodes s).
Proof. unfold dragstarted. destruct (Nat.eqb (active e) 0); reflexivity. Qed.

Lemma nodes_dragended (e : DragEvent) (s : Simulation) :
  nodes (dragended e s) = alter (set_pin None None) (subject e) (nodes s).
Proof. unfold dragended. destruct (Nat.eqb (active e) 0); reflexivity. Qed.

Lemma fmap_alter_keeps {A B : Type} (g : A -> B) (f : A -> A) (i : nat) (l : list A) :
  (forall a, g (f a) = g a) -> g <$> alter f i l = g <$> l.
Proof.
  intros H. apply list_eq. intros j. rewrite !list_lookup_fmap.
  destruct (decide (i = j)) as [->|Hne].
  - rewrite list_lookup_alter_eq. destruct (l !! j); cbn; [now rewrite H|reflexivity].
  - now rewrite list_lookup_alter_ne.
Qed.

(** What neither the integration nor the listener writes is the same after
    a frame. *)
Lemma frame_keeps {B : Type} (g : SimNode -> B) (F : Forces) (dims : Dimensions)
    (s : Simulation) :
  (forall d, g (clamp_node dims d) = g d) ->
  (forall v d k, g (integrate v d k) = g d) ->
  g <$> nodes (frame F (on_tick dims) s) = g <$> nodes s.
Proof.
  intros Hc Hi. unfold frame. destruct (timer s); [|reflexivity].
  rewrite Simulator.nodes_step. unfold on_tick, tick. cbn [nodes].
  rewrite <- !list_fmap_compose. apply list_fmap_ext. intros _ d _.
  unfold compose. now rewrite Hc, Hi.
Qed.

Lemma interact_keeps {B : Type} (g : SimNode -> B) (F : Forces) (dims : Dimensions)
    (s : Simulation) (a : Interaction) :
  (forall d px py, g (set_pin px py d) = g d) ->
  (forall d, g (clamp_node dims d) = g d) ->
  (forall v d k, g (integrate v d k) = g d) ->
  g <$> nodes (interact F dims s a) = g <$> nodes s.
Proof.
  intros Hp Hc Hi. destruct a as [|e|e|e]; cbn [interact].
  - now apply frame_keeps.
  - rewrite nodes_dragstarted. apply fmap_alter_keeps. intros d. apply Hp.
  - unfold dragged. cbn [nodes set_nodes]. apply fmap_alter_keeps. intros d. apply Hp.
  - rewrite nodes_dragended. apply fmap_alter_keeps. intros d. apply Hp.
Qed.

Lemma interactions_keep {B : Type} (g : SimNode -> B) (F : Forces) (dims : Dimensions)
    (events : list Interaction) (s : Simulation) :
  (forall d px py, g (set_pin px py d) = g d) ->
  (forall d, g (clamp_node dims d) = g d) ->
  (forall v d k, g (integrate v d k) = g d) ->
  g <$> nodes (interactions F dims s events) = g <$> nodes s.
Proof.
  intros Hp Hc Hi. revert s. induction events as [|a events IH]; intros s; [reflexivity|].
  change (interactions F dims s (a :: events))
    with (interactions F dims (interact F dims s a) events).
  rewrite IH. now apply interact_keeps.
Qed.

(** A link resolves by position, to whatever id sits there. *)
Lemma resolved_ends_ids (ns ns' : list SimNode) (lk : SimLink) :
  id <$> ns' = id <$> ns -> resolved_ends ns' lk = resolved_ends ns lk.
Proof.
  intros H. unfold resolved_ends.
  assert (forall i, id <$> ns' !! i = id <$> ns !! i) as Hi
    by (intros i; rewrite <- !list_lookup_fmap, H; reflexivity).
  pose proof (Hi (source lk)) as Hs. pose proof (Hi (target lk)) as Ht.
  destruct (ns' !! source lk), (ns !! source lk), (ns' !! target lk), (ns !! target lk);
    cbn in *; congruence.
Qed.

Lemma resolved_all {A B : Type} (f : A -> option B) (l : list A) (k : list B) :
  f <$> l = Some <$> k -> Forall (fun a => is_Some (f a)) l.
Proof.
  revert k. induction l as [|a l IH]; intros k H; [constructor|].
  destruct k as [|b k]; [discriminate|]. cbn in H. injection H as Ha Hl.
  constructor; [rewrite Ha; eexists; reflexivity|]. exact (IH k Hl).
Qed.

(** X13.  Nothing that happens to a mounted graph adds, removes, reorders
    or relabels a node: after [build] and any sequence of animation frames
    and drag events, the simulation still holds one node per input node, in
    input order, with its id and category; every kept link still joins the
    ids it was given, and the listener finds both ends of every line it
    draws. *)
Theorem frames_and_drags_keep_nodes_and_links (F : Forces) (seed : nat -> float * float)
    (dims : Dimensions) (nodes : list DependencyNode) (links : list DependencyLink)
    (events : list Interaction) :
  exists st,
    build seed dims nodes links = Ok st
    /\ id <$> D3Force.nodes (interactions F dims (simulation st) events) = node_id <$> nodes
    /\ category <$> D3Force.nodes (interactions F dims (simulation st) events)
       = node_category <$> nodes
    /\ resolved_ends (D3Force.nodes (interactions F dims (simulation st) events))
         <$> simulationLinks st
       = Some <$> filter (fun l => link_source l ∈ (node_id <$> nodes)
                                   /\ link_target l ∈ (node_id <$> nodes)) links
    /\ Forall is_Some
         (line_of (D3Force.nodes (interactions F dims (simulation st) events))
            <$> simulationLinks st).
Proof.
  destruct (GraphModel.build_result seed dims nodes links) as (resolved & Hb & Hr).
  eexists. split; [exact Hb|]. cbn [simulation simulationLinks].
  set (ns := initializeNodes node_id node_category seed nodes) in *.
  set (ns' := D3Force.nodes (interactions F dims (forceSimulation ns) events)).
  assert (id <$> ns' = id <$> ns) as Hid by (apply interactions_keep; reflexivity).
  assert (category <$> ns' = category <$> ns) as Hcat by (apply interactions_keep; reflexivity).
  assert (resolved_ends ns' <$> resolved = resolved_ends ns <$> resolved) as Hends.
  { apply list_fmap_ext. intros _ lk _. now apply resolved_ends_ids. }
  split; [rewrite Hid; apply GraphModel.initialized_ids|].
  split.
  { rewrite Hcat. subst ns. unfold initializeNodes. apply list_eq. intros i.
    rewrite !list_lookup_fmap, list_lookup_imap. destruct (nodes !! i); reflexivity. }
  split; [rewrite Hends; exact Hr|].
  rewrite <- Hends in Hr. apply resolved_all in Hr.
  apply Forall_fmap. eapply Forall_impl; [exact Hr|].
  intros lk. unfold resolved_ends, line_of, compose.
  destruct (ns' !! source lk), (ns' !! target lk); intros [? ?];
    solve [eexists; reflexivity | discriminate].
Qed.

(** X14.  A drag pins and releases only the node that is dragged.  Through
    any sequence of frames and of drag events on node [i], the pin ([fx],
    [fy]) of every other node stays what it was, and once the drag on [i]
    ends that node has no pin, whatever it had before. *)
Theorem a_drag_pins_only_its_own_node (F : Forces) (dims : Dimensions) (sim : Simulation)
    (events : list Interaction) (finish : DragEvent) (i : nat) :
  Forall (fun a => match a with
                   | Frame => True
                   | DragStart e | Dragging e | DragEnd e => subject e = i
                   end) events ->
  subject finish = i ->
  (forall j, j <> i ->
     (fun d => (fx d, fy d)) <$> nodes (interactions F dims sim events) !! j
     = (fun d => (fx d, fy d)) <$> nodes sim !! j)
  /\ (fun d => (fx d, fy d)) <$> nodes (dragended finish (interactions F dims sim events)) !! i
     = (fun _ => (None, None)) <$> nodes sim !! i.
Proof.
  intros Hev Hfin. split.
  - intros j Hj. revert sim. induction Hev as [|a events Ha _ IH]; intros sim; [reflexivity|].
    change (interactions F dims sim (a :: events))
      with (interactions F dims (interact F dims sim a) events).
    rewrite IH. destruct a as [|e|e|e]; cbn [interact].
    + rewrite <- !list_lookup_fmap. f_equal. apply frame_keeps; reflexivity.
    + rewrite nodes_dragstarted, list_lookup_alter_ne by congruence. reflexivity.
    + unfold dragged. cbn [nodes set_nodes].
      rewrite list_lookup_alter_ne by congruence. reflexivity.
    + rewrite nodes_dragended, list_lookup_alter_ne by congruence. reflexivity.
  - rewrite nodes_dragended, Hfin, list_lookup_alter_eq, <- option_fmap_compose.
    change ((fun d => (fx d, fy d)) ∘ set_pin None None)
      with (fun _ : SimNode => (@None float, @None float)).
    rewrite <- !list_lookup_fmap. f_equal. apply interactions_keep; reflexivity.
Qed.

Lemma a_drag_pins_only_its_own_node_witness :
  let sim := forceSimulation
               [mkNode "app" Core 0 100 100 0 0 None None;
                mkNode "d3" Library 1 200 200 0 0 (Some 7) None] in
  let events := [DragStart (mkDrag 0 0 100 100); Frame; Dragging (mkDrag 0 0 150 90); Frame] in
  (forall j, j <> 0%nat ->
     (fun d => (fx d, fy d)) <$> nodes (interactions no_forces (mkDims 600 400) sim events) !! j
     = (fun d => (fx d, fy d)) <$> nodes sim !! j)
  /\ (fun d => (fx d, fy d))
       <$> nodes (dragended (mkDrag 0 0 150 90)
                    (interactions no_forces (mkDims 600 400) sim events)) !! 0%nat
     = (fun _ => (None, None)) <$> nodes sim !! 0%nat.
Proof.
  apply (a_drag_pins_only_its_own_node no_forces (mkDims 600 400)
           (forceSimulation
              [mkNode "app" Core 0 100 100 0 0 None None;
               mkNode "d3" Library 1 200 200 0 0 (Some 7) None])
           [DragStart (mkDrag 0 0 100 100); Frame; Dragging (mkDrag 0 0 150 90); Frame]
           (mkDrag 0 0 150 90) 0%nat).
  - repeat constructor.
  - reflexivity.
Defined.

(** *** Duplicate ids *)

Lemma nodeById_fold_last (ns : list SimNode) (m : gmap string nat) (s : string) (i : nat) :
  foldl (fun m n => <[id n := index n]> m) m ns !! s = Some i ->
  (exists l1 n l2, ns = l1 ++ n :: l2 /\ id n = s /\ index n = i
                   /\ Forall (fun n' => id n' <> s) l2)
  \/ (m !! s = Some i /\ Forall (fun n' => id n' <> s) ns).
Proof.
  revert m. induction ns as [|a ns IH]; intros m H.
  - right. split; [exact H|constructor].
  - cbn [foldl] in H. apply IH in H.
    destruct H as [(l1 & n & l2 & -> & Hid & Hidx & Hall) | [Hm Hall]].
    + left. exists (a :: l1), n, l2. repeat split; assumption.
    + destruct (decide (id a = s)) as [E|E].
      * left. exists [], a, ns. rewrite E, lookup_insert_eq in Hm.
        injection Hm as Hm. repeat split; assumption.
      * rewrite lookup_insert_ne in Hm by assumption.
        right. split; [assumption|]. constructor; assumption.
Qed.

Lemma resolve_links_lookup (m : gmap string nat) (ls : list (string * string)) (i : nat)
    (out : list SimLink) :
  resolve_links m i ls = Ok out ->
  Forall (fun lk => exists s t, m !! s = Some (source lk) /\ m !! t = Some (target lk)) out.
Proof.
  revert i out. induction ls as [|[s t] ls IH]; intros i out H; cbn [resolve_links] in H.
  - injection H as <-. constructor.
  - unfold find in H. destruct (m !! s) as [src|] eqn:Hs; [|discriminate].
    cbn [bind] in H. destruct (m !! t) as [tgt|] eqn:Ht; [|discriminate].
    cbn [bind] in H. destruct (resolve_links m (S i) ls) as [rest|] eqn:Hr; [|discriminate].
    cbn [bind] in H. injection H as <-.
    constructor; [|exact (IH _ _ Hr)]. exists s, t. split; assumption.
Qed.

(** X15.  With duplicate ids, a link attaches to the last node that carries
    the id.  In the simulation [build] returns, no node with the same id as
    the source (or target) node of a link comes after that node: the id map
    of [forceLink] keeps the later of two nodes with one id, so all links
    naming a repeated id meet at its last occurrence. *)
Theorem links_attach_to_the_last_node_with_an_id (seed : nat -> float * float)
    (dims : Dimensions) (nodes : list DependencyNode) (links : list DependencyLink) :
  exists st,
    build seed dims nodes links = Ok st
    /\ Forall (fun lk =>
                 forall j d,
                   D3Force.nodes (simulation st) !! j = Some d ->
                   (id <$> D3Force.nodes (simulation st) !! source lk = Some (id d) ->
                    (j <= source lk)%nat)
                   /\ (id <$> D3Force.nodes (simulation st) !! target lk = Some (id d) ->
                       (j <= target lk)%nat))
               (simulationLinks st).
Proof.
  destruct (GraphModel.build_result seed dims nodes links) as (resolved & Hb & _).
  eexists. split; [exact Hb|]. cbn [simulation simulationLinks forceSimulation D3Force.nodes].
  unfold build in Hb. cbn [forceSimulation D3Force.nodes] in Hb.
  rewrite list_fmap_id in Hb.
  set (ns := initializeNodes node_id node_category seed nodes) in *.
  destruct (forceLink_initialize ns _) as [out|] eqn:Hout; [|discriminate].
  cbn [bind] in Hb. injection Hb as <-.
  apply resolve_links_lookup in Hout.
  assert (forall j d, ns !! j = Some d -> index d = j) as Hindex.
  { intros j d Hj. subst ns. unfold initializeNodes in Hj.
    rewrite list_lookup_imap in Hj. destruct (nodes !! j); [|discriminate].
    injection Hj as <-. reflexivity. }
  assert (forall s i j d, nodeById ns !! s = Some i -> ns !! j = Some d ->
                          id <$> ns !! i = Some (id d) -> (j <= i)%nat) as Hlast.
  { intros s i j d Hs Hj Hi. unfold nodeById in Hs.
    apply nodeById_fold_last in Hs.
    destruct Hs as [(l1 & n & l2 & Hns & Hid & Hidx & Hall) | [Hm _]];
      [|rewrite lookup_empty in Hm; discriminate].
    assert (ns !! length l1 = Some n) as Hn
      by (rewrite Hns; apply list_lookup_middle; reflexivity).
    apply Hindex in Hn. assert (i = length l1) as -> by congruence.
    rewrite Hns, list_lookup_middle in Hi by reflexivity. cbn in Hi. injection Hi as Hi.
    destruct (decide (j <= length l1)%nat) as [Hle|Hgt]; [exact Hle|exfalso].
    rewrite Hns in Hj. rewrite lookup_app_r in Hj by lia.
    destruct (j - length l1)%nat as [|j'] eqn:Hj'; [lia|]. cbn in Hj.
    apply list_elem_of_lookup_2 in Hj.
    rewrite Forall_forall in Hall. apply (Hall d Hj). congruence. }
  eapply Forall_impl; [exact Hout|].
  intros lk (s & t & Hs & Ht) j d Hj. split; intros Hi.
  - exact (Hlast s _ j d Hs Hj Hi).
  - exact (Hlast t _ j d Ht Hj Hi).
Qed.

(** *** The schedule during a drag *)

Lemma iter_shift {A : Type} (f : A -> A) (n : nat) (a : A) :
  Nat.iter n f (f a) = Nat.iter (S n) f a.
Proof.
  induction n as [|n IH]; [reflexivity|].
  change (f (Nat.iter n f (f a)) = f (Nat.iter (S n) f a)). now rewrite IH.
Qed.

Lemma iter_fixed {A : Type} (f : A -> A) (n : nat) (a : A) :
  f a = a -> Nat.iter n f a = a.
Proof.
  intros H. induction n as [|n IH]; [reflexivity|].
  change (f (Nat.iter n f a) = a). now rewrite IH.
Qed.

Lemma runs_forever_sound (fuel : nat) (c : Clock) :
  runs_forever fuel c = true -> forall n, c_timer (Nat.iter n clock_frame c) = true.
Proof.
  revert c. induction fuel as [|fuel IH]; intros c H n; [discriminate|].
  cbn [runs_forever] in H. apply andb_prop in H. destruct H as [Ht H].
  destruct n as [|n]; [exact Ht|]. rewrite <- iter_shift.
  destruct (Leibniz.eqb (c_alpha (clock_frame c)) (c_alpha c) && c_timer (clock_frame c))
    eqn:Hfix.
  - apply andb_prop in Hfix. destruct Hfix as [Ha Ht'].
    apply Leibniz.eqb_spec in Ha.
    assert (clock_frame c = c) as E.
    { revert Ha Ht'. unfold clock_frame. rewrite Ht. cbn [c_alpha c_timer].
      intros -> ->. destruct c; cbn in *. now subst. }
    rewrite E, iter_fixed by exact E. exact Ht.
  - apply IH. exact H.
Qed.

(** X16.  The simulation runs for as long as a drag lasts.  Take a graph
    that was left alone for any number of frames, still cooling or long
    stopped, and grab a node (no other drag in progress): from then on,
    through any sequence of frames and pointer moves, the timer never stops,
    since alpha now tends to 0.3 and never drops below [alphaMin]. *)
Theorem simulation_runs_while_a_node_is_dragged (F : Forces) (dims : Dimensions)
    (ns : list SimNode) (k : nat) (start : DragEvent) (events : list Interaction) :
  active start = 0%nat ->
  Forall (fun a => match a with Frame | Dragging _ => True | _ => False end) events ->
  timer (interactions F dims
           (dragstarted start (frames F (on_tick dims) k (forceSimulation ns))) events)
  = true.
Proof.
  intros Hact Hev.
  set (s0 := dragstarted start (frames F (on_tick dims) k (forceSimulation ns))).
  assert (forall n, c_timer (Nat.iter n clock_frame (clock s0)) = true) as Hrun.
  { assert (clock s0 = grabbed_clock (Nat.min k 300)) as ->.
    { subst s0. unfold dragstarted. rewrite Hact. cbn [Nat.eqb].
      unfold grabbed_clock, clock at 1. cbn [alpha alphaMin alphaDecay alphaTarget timer
        set_nodes restart set_alphaTarget set_timer].
      pose proof (Simulator.clock_frames F (on_tick dims) k (forceSimulation ns)) as Hc.
      unfold clock at 1 in Hc. change (clock (forceSimulation ns))
        with (mkClock 1 0.001 default_alphaDecay 0 true) in Hc.
      assert (Nat.iter k clock_frame (mkClock 1 0.001 default_alphaDecay 0 true)
              = Nat.iter (Nat.min k 300) clock_frame
                  (mkClock 1 0.001 default_alphaDecay 0 true)) as Hk.
      { destruct (decide (k <= 300)%nat) as [Hle|Hgt]; [now rewrite Nat.min_l by lia|].
        rewrite Nat.min_r by lia.
        assert (exists m, k = (m + 300)%nat) as [m ->] by (exists (k - 300)%nat; lia).
        rewrite Nat.iter_add. apply iter_fixed. vm_compute. reflexivity. }
      rewrite <- Hk, <- Hc. reflexivity. }
    apply (runs_forever_sound 2000).
    assert (forallb (fun j => runs_forever 2000 (grabbed_clock j)) (seq 0 301) = true) as Hall
      by (vm_compute; reflexivity).
    rewrite forallb_forall in Hall. apply Hall. apply in_seq. lia. }
  clearbody s0. revert s0 Hrun.
  induction Hev as [|a events Ha _ IH]; intros s0 Hrun.
  - exact (Hrun 0%nat).
  - change (interactions F dims s0 (a :: events))
      with (interactions F dims (interact F dims s0 a) events).
    apply IH. intros n. destruct a as [|e|e|e]; try contradiction; cbn [interact].
    + rewrite Simulator.clock_frame_frame, iter_shift. apply Hrun.
    + apply Hrun.
Qed.

Lemma simulation_runs_while_a_node_is_dragged_witness :
  timer (interactions no_forces (mkDims 600 400)
           (dragstarted (mkDrag 0 0 300 200)
              (frames no_forces (on_tick (mkDims 600 400)) 400
                 (forceSimulation [mkNode "app" Core 0 300 200 0 0 None None])))
           [Frame; Dragging (mkDrag 0 0 310 205); Frame; Frame])
  = true.
Proof.
  apply (simulation_runs_while_a_node_is_dragged no_forces (mkDims 600 400)
           [mkNode "app" Core 0 300 200 0 0 None None] 400 (mkDrag 0 0 300 200)
           [Frame; Dragging (mkDrag 0 0 310 205); Frame; Frame]).
  - reflexivity.
  - repeat constructor.
Defined.

(** *** Re-rendering and drawing *)

Lemma rerender_builds (seed : nat -> float * float) (g : Graph) (sf : Surface)
    (nodes : list DependencyNode) (links : list DependencyLink) :
  svgRef g = Some sf -> nodes <> [] ->
  exists resolved,
    let st := mkState (forceSimulation (initializeNodes node_id node_category seed nodes))
                      resolved
                      (mkParams 100 (-300) (width (dimensions g) / 2, height (dimensions g) / 2)
                                30) in
    build seed (dimensions g) nodes links = Ok st
    /\ rerender seed g nodes links = mkGraph (Some (draw st)) (dimensions g) (Some st)
    /\ length resolved
       = length (filter (fun l => link_source l ∈ (node_id <$> nodes)
                                  /\ link_target l ∈ (node_id <$> nodes)) links).
Proof.
  intros Hsvg Hne.
  destruct (GraphModel.build_result seed (dimensions g) nodes links) as (resolved & Hb & Hr).
  exists resolved. cbv zeta. split; [exact Hb|]. split.
  - unfold rerender, effect.
    replace (svgRef (cleanup g)) with (svgRef g) by (unfold cleanup; now destruct (mounted g)).
    replace (dimensions (cleanup g)) with (dimensions g)
      by (unfold cleanup; now destruct (mounted g)).
    rewrite Hsvg. destruct nodes as [|n nodes]; [contradiction|].
    rewrite Hb. reflexivity.
  - apply (f_equal length) in Hr. now rewrite !length_fmap in Hr.
Qed.

(** X17.  A re-render starts the layout afresh.  With an [<svg>] in place
    and a non-empty node list, the effect that follows the cleanup mounts a
    new simulation whatever the previous one had reached: every node is back
    on its initial position with zero velocity and no pin, alpha is 1 again
    and the timer runs; the surface has one glyph per node, labelled with its
    id and not yet placed, and one line per kept link.  Every resize goes
    through this, since [dimensions] is a dependency of the effect. *)
Theorem rerender_starts_the_layout_afresh (seed : nat -> float * float) (g : Graph)
    (sf : Surface) (nodes : list DependencyNode) (links : list DependencyLink) :
  svgRef g = Some sf -> nodes <> [] ->
  exists st,
    rerender seed g nodes links = mkGraph (Some (draw st)) (dimensions g) (Some st)
    /\ D3Force.nodes (simulation st)
       = imap (fun i d => mkNode (node_id d) (node_category d) i
                                 (fst (seed i)) (snd (seed i)) 0 0 None None) nodes
    /\ alpha (simulation st) = 1
    /\ alphaTarget (simulation st) = 0
    /\ timer (simulation st) = true
    /\ center (parameters st) = (width (dimensions g) / 2, height (dimensions g) / 2)
    /\ label <$> glyphs (draw st) = node_id <$> nodes
    /\ glyph_transform <$> glyphs (draw st) = (fun _ => None) <$> nodes
    /\ length (lines (draw st))
       = length (filter (fun l => link_source l ∈ (node_id <$> nodes)
                                  /\ link_target l ∈ (node_id <$> nodes)) links).
Proof.
  intros Hsvg Hne.
  destruct (rerender_builds seed g sf nodes links Hsvg Hne) as (resolved & _ & Hre & Hlen).
  eexists. split; [exact Hre|].
  cbn [simulation parameters center draw glyphs lines forceSimulation D3Force.nodes alpha
       alphaTarget timer simulationLinks].
  repeat (split; [reflexivity|]).
  split; [|split].
  - unfold initializeNodes. apply list_eq. intros i.
    rewrite !list_lookup_fmap, list_lookup_imap. destruct (nodes !! i); reflexivity.
  - unfold initializeNodes. apply list_eq. intros i.
    rewrite !list_lookup_fmap, list_lookup_imap. destruct (nodes !! i); reflexivity.
  - rewrite length_fmap. exact Hlen.
Qed.

Lemma rerender_starts_the_layout_afresh_witness :
  exists st,
    rerender (fun _ => (300, 200))
      (mkGraph (Some (mkSurface true [] [])) (mkDims 600 400) None)
      [mkDepNode "app" Core] [mkDepLink "app" "d3"]
    = mkGraph (Some (draw st)) (dimensions (mkGraph (Some (mkSurface true [] []))
                                                    (mkDims 600 400) None)) (Some st)
    /\ D3Force.nodes (simulation st)
       = imap (fun i d => mkNode (node_id d) (node_category d) i
                                 (fst ((fun _ : nat => (300, 200)) i))
                                 (snd ((fun _ : nat => (300, 200)) i)) 0 0 None None)
              [mkDepNode "app" Core]
    /\ alpha (simulation st) = 1
    /\ alphaTarget (simulation st) = 0
    /\ timer (simulation st) = true
    /\ center (parameters st)
       = (width (dimensions (mkGraph (Some (mkSurface true [] [])) (mkDims 600 400) None)) / 2,
          height (dimensions (mkGraph (Some (mkSurface true [] [])) (mkDims 600 400) None)) / 2)
    /\ label <$> glyphs (draw st) = node_id <$> [mkDepNode "app" Core]
    /\ glyph_transform <$> glyphs (draw st) = (fun _ => None) <$> [mkDepNode "app" Core]
    /\ length (lines (draw st))
       = length (filter (fun l => link_source l ∈ (node_id <$> [mkDepNode "app" Core])
                                  /\ link_target l ∈ (node_id <$> [mkDepNode "app" Core]))
                        [mkDepLink "app" "d3"]).
Proof.
  apply (rerender_starts_the_layout_afresh (fun _ => (300, 200))
           (mkGraph (Some (mkSurface true [] [])) (mkDims 600 400) None)
           (mkSurface true [] []) [mkDepNode "app" Core] [mkDepLink "app" "d3"]).
  - reflexivity.
  - discriminate.
Defined.

Lemma placed (ns : list SimNode) (gs : list Glyph) :
  length gs = length ns ->
  glyph_transform <$> zip_with place ns gs = (fun d => Some (x d, y d)) <$> ns
  /\ label <$> zip_with place ns gs = label <$> gs
  /\ circle_r <$> zip_with place ns gs = circle_r <$> gs.
Proof.
  revert gs. induction ns as [|d ns IH]; intros [|gl gs] Hlen; try discriminate.
  - repeat split.
  - cbn in Hlen. injection Hlen as Hlen. destruct (IH gs Hlen) as (H1 & H2 & H3).
    cbn. rewrite H1, H2, H3. repeat split.
Qed.

(** X18.  Every frame draws the clamped positions.  While the timer runs,
    one animation frame of a mounted graph whose surface has a glyph per
    node takes the position [(x, y)] that d3's tick computed for each node
    and both stores in the node and writes as the glyph's transform
    [(max(20, min(width - 20, x)), max(20, min(height - 20, y)))]: what is
    drawn is what the simulation continues from, never the unclamped
    position.  Labels and radii are not touched, and the surface still has a
    glyph per node. *)
Theorem every_frame_draws_the_clamped_positions (F : Forces) (g : Graph)
    (st : SimulationState) (sf : Surface) :
  mounted g = Some st -> svgRef g = Some sf -> timer (simulation st) = true ->
  length (glyphs sf) = length (D3Force.nodes (simulation st)) ->
  exists st' sf',
    animate F g = mkGraph (Some sf') (dimensions g) (Some st')
    /\ (fun d => (x d, y d)) <$> D3Force.nodes (simulation st')
       = (fun d => (Math_max 20 (Math_min (width (dimensions g) - 20) (x d)),
                    Math_max 20 (Math_min (height (dimensions g) - 20) (y d))))
           <$> D3Force.nodes (tick F (simulation st))
    /\ glyph_transform <$> glyphs sf'
       = (fun d => Some (Math_max 20 (Math_min (width (dimensions g) - 20) (x d)),
                         Math_max 20 (Math_min (height (dimensions g) - 20) (y d))))
           <$> D3Force.nodes (tick F (simulation st))
    /\ label <$> glyphs sf' = label <$> glyphs sf
    /\ circle_r <$> glyphs sf' = circle_r <$> glyphs sf
    /\ length (glyphs sf') = length (D3Force.nodes (simulation st')).
Proof.
  intros Hm Hsvg Ht Hlen. unfold animate. rewrite Hm, Ht, Hsvg.
  eexists _, _. split; [reflexivity|].
  cbn [simulation glyphs render].
  assert (D3Force.nodes (step F (on_tick (dimensions g)) (simulation st))
          = on_tick (dimensions g) (D3Force.nodes (tick F (simulation st)))) as Hn
    by apply Simulator.nodes_step.
  assert (length (glyphs sf)
          = length (D3Force.nodes (step F (on_tick (dimensions g)) (simulation st)))) as Hlen'.
  { rewrite Hn. unfold on_tick, tick. cbn [D3Force.nodes]. now rewrite !length_fmap. }
  destruct (placed _ _ Hlen') as (H1 & H2 & H3).
  split; [|split; [|split; [exact H2|split; [exact H3|]]]].
  - rewrite Hn. unfold on_tick. rewrite <- list_fmap_compose. reflexivity.
  - rewrite H1, Hn. unfold on_tick. rewrite <- list_fmap_compose. reflexivity.
  - rewrite <- Hlen'. apply (f_equal length) in H2. now rewrite !length_fmap in H2.
Qed.

Lemma every_frame_draws_the_clamped_positions_witness :
  let st := mkState (forceSimulation [mkNode "app" Core 0 5 500 0 0 None None]) []
                    (mkParams 100 (-300) (300, 200) 30) in
  let g := mkGraph (Some (draw st)) (mkDims 600 400) (Some st) in
  exists st' sf',
    animate no_forces g = mkGraph (Some sf') (dimensions g) (Some st')
    /\ (fun d => (x d, y d)) <$> D3Force.nodes (simulation st')
       = (fun d => (Math_max 20 (Math_min (width (dimensions g) - 20) (x d)),
                    Math_max 20 (Math_min (height (dimensions g) - 20) (y d))))
           <$> D3Force.nodes (tick no_forces (simulation st))
    /\ glyph_transform <$> glyphs sf'
       = (fun d => Some (Math_max 20 (Math_min (width (dimensions g) - 20) (x d)),
                         Math_max 20 (Math_min (height (dimensions g) - 20) (y d))))
           <$> D3Force.nodes (tick no_forces (simulation st))
    /\ label <$> glyphs sf' = label <$> glyphs (draw st)
    /\ circle_r <$> glyphs sf' = circle_r <$> glyphs (draw st)
    /\ length (glyphs sf') = length (D3Force.nodes (simulation st')).
Proof.
  apply (every_frame_draws_the_clamped_positions no_forces
           (mkGraph
              (Some (draw (mkState (forceSimulation [mkNode "app" Core 0 5 500 0 0 None None]) []
                                   (mkParams 100 (-300) (300, 200) 30))))
              (mkDims 600 400)
              (Some (mkState (forceSimulation [mkNode "app" Core 0 5 500 0 0 None None]) []
                             (mkParams 100 (-300) (300, 200) 30))))
           (mkState (forceSimulation [mkNode "app" Core 0 5 500 0 0 None None]) []
                    (mkParams 100 (-300) (300, 200) 30))
           (draw (mkState (forceSimulation [mkNode "app" Core 0 5 500 0 0 None None]) []
                          (mkParams 100 (-300) (300, 200) 30))));
    reflexivity.
Defined.

End GraphSession.

(** ** The analysis panel and the graph it mounts *)

Module PanelGraph.
Import D3Force DependencyGraph AnalysisPanel.
Local Open Scope float_scope.

(** X19.  The analysis panel mounts the dependency graph only with a
    non-empty node list: an analysis without [dependencyGraph], or with one
    that has no nodes, shows the placeholder instead (edges alone do not
    matter).  So from this caller the graph's own guard against an empty
    node list never fires, and with the [<svg>] in place every render of the
    graph mounts a running simulation. *)
Theorem panel_mounts_the_graph_only_with_nodes (dependencyGraph : option DependencyData) :
  (graph_props dependencyGraph = None
   <-> dependencyGraph = None
       \/ exists edges, dependencyGraph = Some (mkData [] edges))
  /\ forall nodes links,
       graph_props dependencyGraph = Some (nodes, links) ->
       nodes <> []
       /\ dependencyGraph = Some (mkData nodes links)
       /\ forall seed g sf,
            svgRef g = Some sf ->
            exists st,
              rerender seed g nodes links = mkGraph (Some (draw st)) (dimensions g) (Some st)
              /\ timer (simulation st) = true
              /\ length (D3Force.nodes (simulation st)) = length nodes.
Proof.
  unfold graph_props, dependencyData. split.
  - destruct dependencyGraph as [[[|n ns] es]|]; cbn; split; intros H; try discriminate;
      auto.
    + right. eexists. reflexivity.
    + destruct H as [H | [edges H]]; discriminate.
  - intros nodes links H.
    destruct dependencyGraph as [[[|n ns] es]|]; cbn in H; try discriminate.
    injection H as <- <-.
    split; [discriminate|]. split; [reflexivity|].
    intros seed g sf Hsvg.
    destruct (GraphSession.rerender_builds seed g sf (n :: ns) es Hsvg)
      as (resolved & _ & Hre & _); [discriminate|].
    eexists. split; [exact Hre|]. split; [reflexivity|].
    cbn [simulation forceSimulation D3Force.nodes]. unfold initializeNodes.
    apply length_imap.
Qed.

End PanelGraph.
